(** * Categorical encoders and the boosted-tree evaluation script

    A shallow embedding of [category_encoding.py] and [model_evaluation.py].

    Every Python object with attributes becomes a record of optional
    fields (an attribute that has not been assigned yet is [None]); a
    method takes the object's state and returns the new state together
    with either its return value or the exception it raises.  The only
    state shared between objects, numpy's global random generator, is
    threaded explicitly through the methods that touch it. *)

From Stdlib Require Import ZArith QArith Reals Lra Lia List String Ascii.
From Stdlib Require Import Sorted OrderedTypeEx.
From stdpp Require Import gmap strings list.

Close Scope Q_scope.
Close Scope R_scope.
Open Scope Z_scope.
Open Scope string_scope.
Open Scope list_scope.
Open Scope nat_scope.

(** ** Exceptions and results *)

Inductive exn : Type :=
| Exception (msg : string)   (* [raise Exception(msg)] in the source *)
| TypeError
| ValueError
| IndexError
| KeyError
| AttributeError.

Inductive result (A : Type) : Type :=
| Ok (a : A)
| Raise (e : exn).
Arguments Ok {A} a.
Arguments Raise {A} e.

#[global] Instance result_ret : MRet result := fun A a => Ok a.
#[global] Instance result_bind : MBind result := fun A B k r =>
  match r with
  | Ok a => k a
  | Raise e => Raise e
  end.

#[global] Instance result_fmap : FMap result := fun A B f r =>
  match r with
  | Ok a => Ok (f a)
  | Raise e => Raise e
  end.

(** ** Values and columns

    A categorical column is a numpy array, hence homogeneous: all
    strings or all numbers.  The elements themselves are compared by
    Python, where a string never equals a number and ordering a string
    against a number raises [TypeError]. *)

Inductive value : Type :=
| VStr (s : string)
| VNum (n : Z).

Inductive column : Type :=
| StrCol (l : list string)
| NumCol (l : list Z).

Definition values (X : column) : list value :=
  match X with
  | StrCol l => VStr <$> l
  | NumCol l => VNum <$> l
  end.

#[global] Instance value_eq_dec : EqDecision value.
Proof. solve_decision. Defined.

Definition value_to_sum (v : value) : string + Z :=
  match v with VStr s => inl s | VNum n => inr n end.
Definition value_of_sum (x : string + Z) : value :=
  match x with inl s => VStr s | inr n => VNum n end.

#[global] Instance value_countable : Countable value.
Proof.
  apply (inj_countable' value_to_sum value_of_sum).
  intros []; reflexivity.
Defined.

(** [a < b] in Python; [None] stands for the [TypeError] of a mixed
    comparison. *)
Definition value_ltb (a b : value) : option bool :=
  match a, b with
  | VStr s, VStr t => Some (String.ltb s t)
  | VNum m, VNum n => Some (m <? n)%Z
  | _, _ => None
  end.

Definition value_lt (a b : value) : Prop := value_ltb a b = Some true.

(** ** [np.unique]: the sorted distinct elements *)

Section Unique.
Context {A : Type} (cmp : A -> A -> comparison).

(* Insertion into a sorted duplicate-free list, dropping a duplicate. *)
Fixpoint insert_uniq (x : A) (l : list A) : list A :=
  match l with
  | [] => [x]
  | y :: l' =>
      match cmp x y with
      | Lt => x :: y :: l'
      | Eq => y :: l'
      | Gt => y :: insert_uniq x l'
      end
  end.

Definition unique (l : list A) : list A := foldr insert_uniq [] l.
End Unique.

(** The strict order a three-way comparison decides, and what makes it
    one. *)
Definition compare_lt {A : Type} (cmp : A -> A -> comparison) (x y : A) : Prop :=
  cmp x y = Lt.

Class CompareOrder {A : Type} (cmp : A -> A -> comparison) : Prop := {
  cmp_eq : forall x y, cmp x y = Eq -> x = y;
  cmp_antisym : forall x y, cmp y x = CompOpp (cmp x y);
  cmp_trans : forall x y z, cmp x y = Lt -> cmp y z = Lt -> cmp x z = Lt
}.

Definition np_unique (X : column) : list value :=
  match X with
  | StrCol l => VStr <$> unique String.compare l
  | NumCol l => VNum <$> unique Z.compare l
  end.

(** [X == key]: the boolean mask of an elementwise comparison. *)
Definition eq_mask (X : column) (key : value) : list bool :=
  (fun v => bool_decide (v = key)) <$> values X.

(** [v in l] for a Python list [l]. *)
Definition py_in (v : value) (l : list value) : bool := bool_decide (v ∈ l).

(** ** [labelencoder] *)

Module LabelEncoder.

(** The wrapped [sklearn.preprocessing.LabelEncoder]: [fit] stores
    [np.unique] of its input in [classes_]. *)
Record sk_label : Type := { classes_ : list value }.

Definition sk_fit (X : column) : sk_label := {| classes_ := np_unique X |}.

(** [bisect.bisect_left a x] on a sorted list [a]: the index [i] with
    every element of [a[:i]] below [x] and none of [a[i:]]; the
    comparison [a[j] < x] raises [TypeError] on mixed types. *)
Fixpoint bisect_left (a : list value) (x : value) : result nat :=
  match a with
  | [] => Ok 0
  | y :: a' =>
      match value_ltb y x with
      | None => Raise TypeError
      | Some true => i ← bisect_left a' x; Ok (S i)
      | Some false => Ok 0
      end
  end.

(** [bisect.insort_left a x]: [a.insert(bisect_left(a, x), x)]. *)
Definition insort_left (a : list value) (x : value) : result (list value) :=
  i ← bisect_left a x; Ok (take i a ++ x :: drop i a).

(** [LabelEncoder.transform]: a label outside [classes_] raises
    [ValueError]; otherwise [np.searchsorted(classes_, y)]. *)
Fixpoint searchsorted (cl : list value) (y : list value) : result (list nat) :=
  match y with
  | [] => Ok []
  | v :: y' => i ← bisect_left cl v; r ← searchsorted cl y'; Ok (i :: r)
  end.

Definition sk_transform (le : sk_label) (y : list value) : result (list nat) :=
  if forallb (fun v => py_in v (classes_ le)) y
  then searchsorted (classes_ le) y
  else Raise ValueError.

(** The object's attributes, [None] until [fit] assigns them. *)
Record state : Type := {
  unknown : option value;
  encoder : option sk_label
}.

Definition new : state := {| unknown := None; encoder := None |}.

(** [while (t1 in l): t1 = t1 + '*'].  A loop that has not left after
    [fuel] tests yields [None]. *)
Fixpoint probe_t1 (fuel : nat) (l : list value) (t1 : string) : option string :=
  match fuel with
  | O => None
  | S fuel' =>
      if py_in (VStr t1) l then probe_t1 fuel' l (t1 ++ "*") else Some t1
  end.

(** [while (t2 in l): t2 -= t2]. *)
Fixpoint probe_t2 (fuel : nat) (l : list value) (t2 : Z) : option Z :=
  match fuel with
  | O => None
  | S fuel' =>
      if py_in (VNum t2) l then probe_t2 fuel' l (t2 - t2)%Z else Some t2
  end.

Definition fit (fuel : nat) (st : state) (X : column)
  : option (state * result unit) :=
  let l := np_unique X in
  match probe_t1 fuel l "<unknown>" with
  | None => None
  | Some t1 =>
      match probe_t2 fuel l (-999)%Z with
      | None => None
      | Some t2 =>
          let le := sk_fit X in
          let le_classes := classes_ le in
          match insort_left le_classes (VStr t1) with
          | Ok cl =>
              Some ({| unknown := Some (VStr t1);
                       encoder := Some {| classes_ := cl |} |}, Ok tt)
          | Raise _ =>
              match insort_left le_classes (VNum t2) with
              | Ok cl =>
                  Some ({| unknown := Some (VNum t2);
                           encoder := Some {| classes_ := cl |} |}, Ok tt)
              | Raise e => Some (st, Raise e)
              end
          end
      end
  end.

(** [[s if s in self.encoder.classes_ else self.unknown for s in X]] *)
Fixpoint replace_unseen (cl : list value) (unk : option value)
  (X : list value) : result (list value) :=
  match X with
  | [] => Ok []
  | s :: X' =>
      s' ← (if py_in s cl then Ok s
            else match unk with
                 | Some u => Ok u
                 | None => Raise AttributeError
                 end);
      r ← replace_unseen cl unk X';
      Ok (s' :: r)
  end.

Definition transform (st : state) (X : column) : state * result (list nat) :=
  match encoder st with
  | None => (st, Raise AttributeError)
  | Some le =>
      (st, X' ← replace_unseen (classes_ le) (unknown st) (values X);
           sk_transform le X')
  end.

End LabelEncoder.

(** ** [onehotencoder] *)

Module OneHotEncoder.

(** The wrapped [sklearn.preprocessing.OneHotEncoder], built from
    [self.get_params()] with [n_values='auto'] (the constructor default)
    and fitted on the single column of label codes: [n_values_] is the
    largest code plus one, [active_features_] the codes that occur in the
    fitted column, in increasing order.  It is the encoder whose output
    the class docstring shows: three columns after [fit(['a','b','c'])]
    and an all-zero row for each value not seen by [fit]. *)
Inductive handle_unknown_t : Type := HU_error | HU_ignore.

Record sk_onehot : Type := {
  n_values_ : nat;
  active_features_ : list nat
}.

(** [check_array] refuses an array without samples. *)
Definition sk_fit (codes : list nat) : result sk_onehot :=
  match codes with
  | [] => Raise ValueError
  | _ :: _ =>
      Ok {| n_values_ := S (max_list codes);
            active_features_ := unique Nat.compare codes |}
  end.

Definition onehot_row (active : list nat) (c : nat) : list Z :=
  (fun a => if bool_decide (a = c) then 1%Z else 0%Z) <$> active.

(** A code outside [range(n_values_)] raises [ValueError] under
    [handle_unknown='error'] and is dropped under ['ignore']; the
    output keeps the active columns only. *)
Definition sk_transform (hu : handle_unknown_t) (oh : sk_onehot)
  (codes : list nat) : result (list (list Z)) :=
  match codes with
  | [] => Raise ValueError
  | _ :: _ =>
      if forallb (fun c => c <? n_values_ oh) codes
      then Ok (onehot_row (active_features_ oh) <$> codes)
      else match hu with
           | HU_error => Raise ValueError
           | HU_ignore => Ok (onehot_row (active_features_ oh) <$> codes)
           end
  end.

Record state : Type := {
  handle_unknown : handle_unknown_t;      (* constructor parameter *)
  le : option LabelEncoder.state;
  encoder : option sk_onehot
}.

Definition init (hu : handle_unknown_t) : state :=
  {| handle_unknown := hu; le := None; encoder := None |}.

Definition fit (fuel : nat) (st : state) (X : column)
  : option (state * result unit) :=
  match LabelEncoder.fit fuel LabelEncoder.new X with
  | None => None
  | Some (_, Raise e) => Some (st, Raise e)
  | Some (le0, Ok _) =>
      let '(le1, r) := LabelEncoder.transform le0 X in
      let st1 := {| handle_unknown := handle_unknown st;
                    le := Some le1; encoder := encoder st |} in
      match r with
      | Raise e => Some (st1, Raise e)
      | Ok codes =>
          match sk_fit codes with
          | Raise e => Some (st1, Raise e)
          | Ok onehot =>
              Some ({| handle_unknown := handle_unknown st;
                       le := Some le1; encoder := Some onehot |}, Ok tt)
          end
      end
  end.

Definition transform (st : state) (X : column)
  : state * result (list (list Z)) :=
  match le st with
  | None => (st, Raise AttributeError)
  | Some le0 =>
      let '(le1, r) := LabelEncoder.transform le0 X in
      let st1 := {| handle_unknown := handle_unknown st;
                    le := Some le1; encoder := encoder st |} in
      match r with
      | Raise e => (st1, Raise e)
      | Ok codes =>
          match encoder st1 with
          | None => (st1, Raise AttributeError)
          | Some onehot => (st1, sk_transform (handle_unknown st1) onehot codes)
          end
      end
  end.

End OneHotEncoder.

(** ** [countencoder] *)

Module CountEncoder.

(** A float64 as [np.log] returns it. *)
Inductive float : Type :=
| Fin (r : R)
| NegInf
| NaN.

(** [np.log] of an integer: the natural logarithm of a positive
    argument, [-inf] at zero and [nan] below. *)
Definition np_log (z : Z) : float :=
  if (0 <? z)%Z then Fin (ln (IZR z))
  else if (z =? 0)%Z then NegInf
  else NaN.

Inductive output : Type :=
| Ints (l : list Z)
| Floats (l : list float).

Record state : Type := {
  unseen_values : Z;
  log_transform : bool;
  smoothing : Z;
  dmap : option (gmap value nat)
}.

(** [__init__(self, unseen_values=1, log_transform=True, smoothing=1)] *)
Definition init (unseen_values0 : Z) (log_transform0 : bool) (smoothing0 : Z)
  : state :=
  {| unseen_values := unseen_values0;
     log_transform := log_transform0;
     smoothing := 1;
     dmap := None |}.

(** [collections.Counter(X)]: one increment per element. *)
Definition Counter (X : list value) : gmap value nat :=
  foldl (fun m x => <[x := S (default 0 (m !! x))]> m) ∅ X.

Definition fit (st : state) (X : column) : state * result unit :=
  ({| unseen_values := unseen_values st;
      log_transform := log_transform st;
      smoothing := smoothing st;
      dmap := Some (Counter (values X)) |}, Ok tt).

(** The comprehension reads [self.dmap] once per element, so an object
    that was never fitted raises [AttributeError] on the first element
    and returns the empty array for an empty input. *)
Definition transform (st : state) (X : column) : state * result output :=
  match dmap st, values X with
  | None, _ :: _ => (st, Raise AttributeError)
  | None, [] =>
      (st, Ok (if log_transform st then Floats [] else Ints []))
  | Some d, vs =>
      let X' := (fun i => if bool_decide (i ∈ dom d)
                          then (Z.of_nat (default 0%nat (d !! i)) + smoothing st)%Z
                          else unseen_values st) <$> vs in
      (st, Ok (if log_transform st then Floats (np_log <$> X') else Ints X'))
  end.

End CountEncoder.

(** ** Numbers and the random generator

    The target encoder computes with numpy floats and draws from numpy's
    global generator.  Both are taken as interfaces: the arithmetic the
    source writes, in the order it writes it, over any carrier; and a
    generator state that [np.random.seed] resets and each draw advances. *)

Class Numeric (num : Type) : Type := {
  num_zero : num;
  num_add : num -> num -> num;
  num_mul : num -> num -> num;
  num_div : num -> num -> num;
  num_of_nat : nat -> num;          (* [len(l)] as a number *)
  num_mean : list num -> num        (* [ndarray.mean()] *)
}.

Class RandomState (num rng : Type) : Type := {
  (* [np.random.seed(s)]: the state fixed by [s], or [None] for a seed
     numpy refuses with [ValueError] *)
  rng_seed : Z -> option rng;
  (* the check [np.random.normal] makes on its [scale] argument *)
  rng_scale_ok : num -> bool;
  (* one draw of [normal(loc, scale)] and the advanced state *)
  rng_normal1 : rng -> num -> num -> num * rng
}.

(** The builtin [sum]: a left fold of [+] from [0]. *)
Definition py_sum {num : Type} `{!Numeric num} (l : list num) : num :=
  foldl num_add num_zero l.

(** [y[mask]] with a boolean mask: the lengths must agree. *)
Fixpoint select {A} (y : list A) (mask : list bool) : list A :=
  match y, mask with
  | a :: y', b :: mask' => if b then a :: select y' mask' else select y' mask'
  | _, _ => []
  end.

Definition mask_select {A} (y : list A) (mask : list bool) : result (list A) :=
  if bool_decide (length y = length mask) then Ok (select y mask)
  else Raise IndexError.

(** [np.random.normal(loc, scale, n)] on the state [g]: [n] successive
    draws. *)
Fixpoint normal_draws {num rng : Type} `{!RandomState num rng} (g : rng)
  (loc scale : num)
  (n : nat) : list num * rng :=
  match n with
  | O => ([], g)
  | S n' =>
      let '(x, g1) := rng_normal1 g loc scale in
      let '(xs, g2) := normal_draws g1 loc scale n' in
      (x :: xs, g2)
  end.

Definition np_random_normal {num rng : Type} `{!RandomState num rng} (g : rng)
  (loc scale : num)
  (n : nat) : result (list num * rng) :=
  if rng_scale_ok scale then Ok (normal_draws g loc scale n)
  else Raise ValueError.

(** ** [targetencoder] *)

Module TargetEncoder.

Section WithNumbers.
Context {num rng : Type} `{!Numeric num} `{!RandomState num rng}.

Record state : Type := {
  random_noise : num;
  smoothing : num;
  random_seed : Z;
  classes_ : option (list value);
  bias : option (list num);
  dmap : option (gmap value num);
  base_p : option num
}.

(** [__init__(self, random_noise=0.05, smoothing=0.1, random_seed=10)] *)
Definition init (random_noise0 smoothing0 : num) (random_seed0 : Z) : state :=
  {| random_noise := random_noise0;
     smoothing := smoothing0;
     random_seed := random_seed0;
     classes_ := None; bias := None; dmap := None; base_p := None |}.

Definition set_classes (st : state) (c : list value) : state :=
  {| random_noise := random_noise st; smoothing := smoothing st;
     random_seed := random_seed st;
     classes_ := Some c; bias := bias st; dmap := dmap st;
     base_p := base_p st |}.

Definition set_bias (st : state) (b : list num) : state :=
  {| random_noise := random_noise st; smoothing := smoothing st;
     random_seed := random_seed st;
     classes_ := classes_ st; bias := Some b; dmap := dmap st;
     base_p := base_p st |}.

Definition set_dmap (st : state) (d : gmap value num) : state :=
  {| random_noise := random_noise st; smoothing := smoothing st;
     random_seed := random_seed st;
     classes_ := classes_ st; bias := bias st; dmap := Some d;
     base_p := base_p st |}.

Definition set_base_p (st : state) (p : num) : state :=
  {| random_noise := random_noise st; smoothing := smoothing st;
     random_seed := random_seed st;
     classes_ := classes_ st; bias := bias st; dmap := dmap st;
     base_p := Some p |}.

(** [(sum(l) + smoothing * len(l) * base_p) / (len(l) + smoothing * len(l))] *)
Definition smoothed_mean (smoothing0 base_p0 : num) (l : list num) : num :=
  num_div
    (num_add (py_sum l)
       (num_mul (num_mul smoothing0 (num_of_nat (length l))) base_p0))
    (num_add (num_of_nat (length l))
       (num_mul smoothing0 (num_of_nat (length l)))).

(** The body of [for i, key in enumerate(self.classes_)], run over the
    remaining pairs with the dictionary filled so far. *)
Fixpoint fit_loop (smoothing0 base_p0 : num) (X : column) (y bias0 : list num)
  (items : list (nat * value)) (d : gmap value num)
  : gmap value num * result unit :=
  match items with
  | [] => (d, Ok tt)
  | (i, key) :: rest =>
      match mask_select y (eq_mask X key) with
      | Raise e => (d, Raise e)
      | Ok l =>
          let p := smoothed_mean smoothing0 base_p0 l in
          match bias0 !! i with
          | None => (d, Raise IndexError)
          | Some b =>
              let p := num_add p b in
              fit_loop smoothing0 base_p0 X y bias0 rest (<[key := p]> d)
          end
      end
  end.

Definition enumerate {A} (l : list A) : list (nat * A) := imap pair l.

(** [fit] takes the generator state it finds and returns the one it
    leaves. *)
Definition fit (g : rng) (st : state) (X : column) (y : option (list num))
  : rng * state * result unit :=
  match y with
  | None => (g, st, Raise (Exception "encoder need valid y label."))
  | Some y =>
      let cl := np_unique X in
      let st := set_classes st cl in
      match rng_seed (random_seed st) with
      | None => (g, st, Raise ValueError)
      | Some g =>
          match np_random_normal g num_zero (random_noise st) (length cl) with
          | Raise e => (g, st, Raise e)
          | Ok (b, g) =>
              let st := set_bias st b in
              let st := set_dmap st ∅ in
              let st := set_base_p st (num_mean y) in
              let '(d, r) :=
                fit_loop (smoothing st) (num_mean y) X y b (enumerate cl) ∅ in
              (g, set_dmap st d, r)
          end
      end
  end.

(** The comprehension reads [self.dmap] for every element and
    [self.base_p] for the elements that are not keys. *)
Fixpoint lookup_all (d : option (gmap value num)) (p : option num)
  (X : list value) : result (list num) :=
  match X with
  | [] => Ok []
  | i :: X' =>
      match d with
      | None => Raise AttributeError
      | Some d0 =>
          x ← (if bool_decide (i ∈ dom d0)
               then match d0 !! i with
                    | Some v => Ok v
                    | None => Raise KeyError
                    end
               else match p with
                    | Some v => Ok v
                    | None => Raise AttributeError
                    end);
          r ← lookup_all d p X';
          Ok (x :: r)
      end
  end.

Definition transform (g : rng) (st : state) (X : column)
  : rng * state * result (list num) :=
  (g, st, lookup_all (dmap st) (base_p st) (values X)).

End WithNumbers.

Arguments state : clear implicits.

End TargetEncoder.

(** ** The encoders as objects of one program

    An instance is the state of one encoder object; [np.random]'s
    generator is the one piece of state all instances share. *)

Module Encoders.

Section WithNumbers.
Context {num rng : Type} `{!Numeric num} `{!RandomState num rng}.

Inductive instance : Type :=
| ILabel (s : LabelEncoder.state)
| IOneHot (s : OneHotEncoder.state)
| ICount (s : CountEncoder.state)
| ITarget (s : TargetEncoder.state num).

Inductive output : Type :=
| OCodes (l : list nat)
| ORows (l : list (list Z))
| OCounts (o : CountEncoder.output)
| OMeans (l : list num).

(** [enc.fit(X, y)]; [None] when a loop of [fit] is still running after
    [fuel] tests. *)
Definition fit (fuel : nat) (g : rng) (e : instance) (X : column)
  (y : option (list num)) : option (rng * instance * result unit) :=
  match e with
  | ILabel s =>
      '(s', r) ← LabelEncoder.fit fuel s X; Some (g, ILabel s', r)
  | IOneHot s =>
      '(s', r) ← OneHotEncoder.fit fuel s X; Some (g, IOneHot s', r)
  | ICount s =>
      let '(s', r) := CountEncoder.fit s X in Some (g, ICount s', r)
  | ITarget s =>
      let '(g', s', r) := TargetEncoder.fit g s X y in Some (g', ITarget s', r)
  end.

(** [enc.transform(X)] *)
Definition transform (g : rng) (e : instance) (X : column)
  : rng * instance * result output :=
  match e with
  | ILabel s =>
      let '(s', r) := LabelEncoder.transform s X in (g, ILabel s', OCodes <$> r)
  | IOneHot s =>
      let '(s', r) := OneHotEncoder.transform s X in (g, IOneHot s', ORows <$> r)
  | ICount s =>
      let '(s', r) := CountEncoder.transform s X in (g, ICount s', OCounts <$> r)
  | ITarget s =>
      let '(g', s', r) := TargetEncoder.transform g s X in
      (g', ITarget s', OMeans <$> r)
  end.

End WithNumbers.

Arguments instance : clear implicits.
Arguments output : clear implicits.

End Encoders.

(** ** [xgb_model_evaluation] *)

Module ModelEvaluation.

(** A float that may come out of a numpy division. *)
Inductive ratio : Type :=
| Fin (q : Q)
| Inf
| NaN.

(** [a / b] on the numpy integers [np.sum] returns. *)
Definition np_true_divide (a b : nat) : ratio :=
  match b with
  | O => match a with O => NaN | S _ => Inf end
  | S _ => Fin (Z.of_nat a # Pos.of_nat b)
  end.

Inductive pvalue : Type :=
| PStr (s : string)
| PNum (r : ratio).



(** What the argument [params] can be: a string, or a dictionary handed
    to [xgb.train] as it is. *)
Inductive params_arg : Type :=
| ByName (s : string)
| Dict (d : gmap string pvalue).

Section WithLibraries.
Context {row booster score : Type}.

Abbreviation table := (list row).
Abbreviation labels := (list Z).

(** [xgb.DMatrix(data, label=None)] *)
Record DMatrix : Type := {
  dm_data : option table;
  dm_label : option labels
}.

(** One call of [xgb.train], as the script makes it. *)
Record train_call : Type := {
  tc_params : params_arg;
  tc_dtrain : DMatrix;
  tc_num_rounds : Z;
  tc_watchlist : list (DMatrix * string);
  tc_early_stopping_rounds : Z;
  tc_verbose_eval : bool
}.

(** The libraries the script calls. *)
Context (train_test_split : table -> labels -> Q -> Z
                            -> table * table * labels * labels)
        (skf_split : Z -> Z -> table -> labels -> list (list nat * list nat))
        (xgb_train : train_call -> booster)
        (predict : booster -> DMatrix -> list score)
        (roc_auc_score : option labels -> list score -> score).

(** The state outside the function: the two module-level dictionaries,
    which the function updates in place, and the calls of [xgb.train]
    made so far, oldest first. *)
Record world : Type := {
  params_tree : gmap string pvalue;
  params_linear : gmap string pvalue;
  trained : list train_call
}.


Definition train (w : world) (c : train_call) : world * booster :=
  ({| params_tree := params_tree w; params_linear := params_linear w;
      trained := trained w ++ [c] |}, xgb_train c).

(** [{'train_auc': .., 'val_auc': .., 'test auc': ..}] *)
Record fold_record : Type := {
  train_auc : score;
  val_auc : score;
  test_auc : score
}.

(** [pd.DataFrame({'y_true': .., 'y_pred': ..})] *)
Record DataFrame : Type := {
  y_true : option labels;
  y_pred : list score
}.

(** [frame.iloc[index]]: a position outside the frame raises. *)
Fixpoint iloc {A} (l : list A) (index : list nat) : result (list A) :=
  match index with
  | [] => Ok []
  | i :: index' =>
      match l !! i with
      | None => Raise IndexError
      | Some a => r ← iloc l index'; Ok (a :: r)
      end
  end.

(** The body of [for t_index, v_index in skf.split(train, train_y)]. *)
Fixpoint cv_loop (params : params_arg) (train0 : table) (train_y : labels)
  (test : option table) (test_y : option labels) (dtest : DMatrix)
  (test_size : Q) (early_stopping_rounds num_rounds : Z) (cv_verbose_eval : bool)
  (folds : list (list nat * list nat)) (w : world) (dic_cv : list fold_record)
  : world * result (list fold_record) :=
  match folds with
  | [] => (w, Ok dic_cv)
  | (t_index, v_index) :: rest =>
      match
        (tra ← iloc train0 t_index; val ← iloc train0 v_index;
         tra_y ← iloc train_y t_index; val_y ← iloc train_y v_index;
         Ok (tra, val, tra_y, val_y))
      with
      | Raise e => (w, Raise e)
      | Ok (tra, val, tra_y, val_y) =>
          let dtrain := {| dm_data := Some tra; dm_label := Some tra_y |} in
          let dvalid := {| dm_data := Some val; dm_label := Some val_y |} in
          let watchlist := [(dtrain, "train"); (dvalid, "eval")] in
          let '(w, bst) :=
            train w {| tc_params := params; tc_dtrain := dtrain;
                       tc_num_rounds := num_rounds; tc_watchlist := watchlist;
                       tc_early_stopping_rounds := early_stopping_rounds;
                       tc_verbose_eval := cv_verbose_eval |} in
          let dic_cv :=
            if Qlt_le_dec 0 test_size then
              let temp := predict bst dtest in
              let dic_res :=
                {| train_auc :=
                     roc_auc_score (Some tra_y)
                       (predict bst {| dm_data := Some tra; dm_label := None |});
                   val_auc :=
                     roc_auc_score (Some val_y)
                       (predict bst {| dm_data := Some val; dm_label := None |});
                   test_auc := roc_auc_score test_y temp |} in
              dic_cv ++ [dic_res]
            else dic_cv in
          cv_loop params train0 train_y test test_y dtest test_size
            early_stopping_rounds num_rounds cv_verbose_eval rest w dic_cv
      end
  end.

Definition count_eq (target : labels) (c : Z) : nat :=
  length (filter (fun t => t = c) target).

Definition xgb_model_evaluation (w : world) (df : table) (target : labels)
  (test : option table) (test_y : option labels) (params : params_arg)
  (n_folds : Z) (test_size : Q) (random_state : Z)
  (early_stopping_rounds num_rounds : Z) (cv_verbose_eval verbose_eval : bool)
  (pn_ratio : option ratio)
  : world * result (booster * list fold_record * DataFrame * DataFrame) :=
  let pn_ratio :=
    match pn_ratio with
    | None => np_true_divide (count_eq target 0) (count_eq target 1)
    | Some r => r
    end in
  (* [params = params_tree] binds the module-level dictionary itself, so
     the assignment to its key is seen by every later call *)
  let '(w, params) :=
    match params with
    | ByName s =>
        if String.eqb s "gbtree" then
          let d := <["scale_pos_weight" := PNum pn_ratio]> (params_tree w) in
          ({| params_tree := d; params_linear := params_linear w;
              trained := trained w |}, Dict d)
        else if String.eqb s "gblinear" then
          let d := <["scale_pos_weight" := PNum pn_ratio]> (params_linear w) in
          ({| params_tree := params_tree w; params_linear := d;
              trained := trained w |}, Dict d)
        else (w, params)
    | Dict _ => (w, params)
    end in
  let '(train0, test, train_y, test_y) :=
    match test, test_y with
    | None, None =>
        let '(tr, te, tr_y, te_y) :=
          train_test_split df target test_size random_state in
        (tr, Some te, tr_y, Some te_y)
    | _, _ => (df, test, target, test_y)
    end in
  let dic_cv := [] in
  let dtest := {| dm_data := test; dm_label := None |} in
  let '(w, r) :=
    if bool_decide (n_folds ≠ 0%Z) then
      cv_loop params train0 train_y test test_y dtest test_size
        early_stopping_rounds num_rounds cv_verbose_eval
        (skf_split n_folds random_state train0 train_y) w dic_cv
    else (w, Ok dic_cv) in
  match r with
  | Raise e => (w, Raise e)
  | Ok dic_cv =>
      let dtr := {| dm_data := Some train0; dm_label := None |} in
      let dvalid := {| dm_data := test; dm_label := test_y |} in
      let dtrain := {| dm_data := Some train0; dm_label := Some train_y |} in
      let watchlist := [(dtrain, "train"); (dvalid, "eval")] in
      let '(w, bst) :=
        train w {| tc_params := params; tc_dtrain := dtrain;
                   tc_num_rounds := num_rounds; tc_watchlist := watchlist;
                   tc_early_stopping_rounds := early_stopping_rounds;
                   tc_verbose_eval := verbose_eval |} in
      let pred_test := predict bst dtest in
      let df_test := {| y_true := test_y; y_pred := pred_test |} in
      let pred_train := predict bst dtr in
      let df_train := {| y_true := Some train_y; y_pred := pred_train |} in
      (w, Ok (bst, dic_cv, df_test, df_train))
  end.

End WithLibraries.

End ModelEvaluation.

(** ** The one-hot output, in the words of the specification *)

Definition row_sum (row : list Z) : Z := foldr Z.add 0%Z row.

(** The basis vector of [v] over the categories [cats]: a one in the
    column of [v], zeros elsewhere (all zeros when [v] has no column). *)
Definition indicator_row (cats : list value) (v : value) : list Z :=
  (fun k => if bool_decide (k = v) then 1%Z else 0%Z) <$> cats.

(** The [j]th basis vector of width [n]. *)
Definition basis (n j : nat) : list Z := <[j := 1%Z]> (replicate n 0%Z).

(** The sentinel a fitted one-hot encoder holds. *)
Definition sentinel (st : OneHotEncoder.state) : option value :=
  OneHotEncoder.le st ≫= LabelEncoder.unknown.

(** The specification's sentence about [X] at fit time and [X'] at
    transform time: each row is one wider than the number of distinct
    fit-time categories, sums to one, and is the basis vector of one
    fixed extra column, the sentinel's, for each value not seen by
    [fit]. *)
Definition onehot_claim_as_stated (hu : OneHotEncoder.handle_unknown_t)
  (X X' : column) : Prop :=
  forall fuel st' rows,
    OneHotEncoder.fit fuel (OneHotEncoder.init hu) X = Some (st', Ok tt) ->
    snd (OneHotEncoder.transform st' X') = Ok rows ->
    exists j, j < S (length (np_unique X)) /\
      Forall2 (fun v row =>
                 length row = S (length (np_unique X)) /\
                 row_sum row = 1%Z /\
                 (v ∉ values X -> row = basis (S (length (np_unique X))) j))
        (values X') rows.

(** How often [v] occurs in [l]. *)
Definition occurrences (v : value) (l : list value) : nat :=
  length (filter (fun x => x = v) l).

(** ** Codes of single values *)

(** The column that holds [v] alone. *)
Definition singleton_col (v : value) : column :=
  match v with
  | VStr s => StrCol [s]
  | VNum n => NumCol [n]
  end.

(** The code [labelencoder.transform] returns for [v] alone ([0] stands
    in when it returns none). *)
Definition label_code (st : LabelEncoder.state) (v : value) : nat :=
  match (LabelEncoder.transform st (singleton_col v)).2 with
  | Ok (c :: _) => c
  | _ => 0
  end.

(** ** A concrete carrier

    Exact rationals, with a small linear congruential generator in the
    place of numpy's: enough to run the target encoder. *)

#[global] Instance Q_numeric : Numeric Q := {|
  num_zero := 0%Q;
  num_add := Qplus;
  num_mul := Qmult;
  num_div := Qdiv;
  num_of_nat := fun n => inject_Z (Z.of_nat n);
  num_mean := fun l => Qdiv (foldl Qplus 0%Q l) (inject_Z (Z.of_nat (length l)))
|}.

#[global] Instance lcg_random_state : RandomState Q Z := {|
  rng_seed := fun s =>
    if bool_decide (0 ≤ s < 2 ^ 32)%Z then Some s else None;
  rng_scale_ok := fun scale => Qle_bool 0%Q scale;
  rng_normal1 := fun g loc scale =>
    (Qplus loc (Qmult scale (inject_Z (g `mod` 7 - 3))),
     ((g * 1103515245 + 12345) `mod` 2 ^ 31)%Z)
|}.

(** * Properties *)

(** ** Comparisons that order their carrier *)

#[global] Instance Z_compare_order : CompareOrder Z.compare.
Proof.
  split.
  - apply Z.compare_eq.
  - intros x y. apply Z.compare_antisym.
  - intros x y z. rewrite !Z.compare_lt_iff. lia.
Qed.

#[global] Instance nat_compare_order : CompareOrder Nat.compare.
Proof.
  split.
  - apply Nat.compare_eq.
  - intros x y. apply Nat.compare_antisym.
  - intros x y z. rewrite !Nat.compare_lt_iff. lia.
Qed.

#[global] Instance string_compare_order : CompareOrder String.compare.
Proof.
  split.
  - apply String.compare_eq_iff.
  - intros x y. apply String.compare_antisym.
  - intros x y z Hxy Hyz.
    apply String_as_OT.cmp_lt. apply String_as_OT.cmp_lt in Hxy, Hyz.
    eapply String_as_OT.lt_trans; eassumption.
Qed.

Section UniqueFacts.
Context {A : Type} (cmp : A -> A -> comparison) `{!CompareOrder cmp}.

Lemma cmp_refl x : cmp x x = Eq.
Proof.
  pose proof (cmp_antisym x x) as E. destruct (cmp x x); simpl in E; congruence.
Qed.

Lemma compare_lt_irrefl x : ~ compare_lt cmp x x.
Proof. unfold compare_lt. rewrite cmp_refl. discriminate. Qed.

Lemma cmp_gt_lt x y : cmp x y = Gt -> compare_lt cmp y x.
Proof. unfold compare_lt. intros E. rewrite cmp_antisym, E. reflexivity. Qed.

Lemma elem_of_insert_uniq x y l :
  y ∈ insert_uniq cmp x l <-> y = x \/ y ∈ l.
Proof.
  induction l as [|z l IH]; simpl.
  - rewrite list_elem_of_singleton, elem_of_nil. tauto.
  - destruct (cmp x z) eqn:E.
    + apply cmp_eq in E. subst z. rewrite elem_of_cons. tauto.
    + rewrite !elem_of_cons. tauto.
    + rewrite !elem_of_cons, IH. tauto.
Qed.

Lemma elem_of_unique y l : y ∈ unique cmp l <-> y ∈ l.
Proof.
  induction l as [|x l IH]; simpl; [reflexivity|].
  rewrite elem_of_insert_uniq, elem_of_cons, IH. reflexivity.
Qed.

Lemma insert_uniq_sorted x l :
  StronglySorted (compare_lt cmp) l -> StronglySorted (compare_lt cmp) (insert_uniq cmp x l).
Proof.
  induction 1 as [|z l Hs IH Hz]; simpl.
  - repeat constructor.
  - destruct (cmp x z) eqn:E.
    + by constructor.
    + constructor; [by constructor|].
      constructor; [exact E|].
      eapply Forall_impl; [exact Hz|]. intros w Hw. eapply cmp_trans; eauto.
    + constructor; [exact IH|].
      apply Forall_forall. intros w Hw.
      apply elem_of_insert_uniq in Hw as [->|Hw].
      * by apply cmp_gt_lt.
      * rewrite Forall_forall in Hz. by apply Hz.
Qed.

Lemma unique_sorted l : StronglySorted (compare_lt cmp) (unique cmp l).
Proof.
  induction l as [|x l IH]; simpl; [constructor|].
  by apply insert_uniq_sorted.
Qed.

Lemma sorted_NoDup l : StronglySorted (compare_lt cmp) l -> NoDup l.
Proof.
  induction 1 as [|z l Hs IH Hz]; constructor; [|exact IH].
  intros Hin. rewrite Forall_forall in Hz.
  exact (compare_lt_irrefl z (Hz z Hin)).
Qed.

Lemma unique_NoDup l : NoDup (unique cmp l).
Proof. apply sorted_NoDup, unique_sorted. Qed.

End UniqueFacts.

(** ** Python's order on values *)

Lemma value_lt_str s t : value_lt (VStr s) (VStr t) <-> compare_lt String.compare s t.
Proof.
  unfold value_lt, compare_lt; simpl. unfold String.ltb.
  destruct (String.compare s t); split; congruence.
Qed.

Lemma value_lt_num m n : value_lt (VNum m) (VNum n) <-> compare_lt Z.compare m n.
Proof.
  unfold value_lt, compare_lt; simpl. unfold Z.ltb.
  destruct (Z.compare m n); split; congruence.
Qed.

Lemma value_ltb_irrefl v : value_ltb v v = Some false.
Proof.
  destruct v as [s|n]; simpl.
  - unfold String.ltb. by rewrite (cmp_refl String.compare).
  - by rewrite Z.ltb_irrefl.
Qed.

Lemma value_lt_irrefl v : ~ value_lt v v.
Proof. unfold value_lt. rewrite value_ltb_irrefl. discriminate. Qed.

Lemma value_lt_trans u v w : value_lt u v -> value_lt v w -> value_lt u w.
Proof.
  destruct u, v, w; try (unfold value_lt; simpl; discriminate).
  - rewrite !value_lt_str. apply cmp_trans.
  - rewrite !value_lt_num. apply cmp_trans.
Qed.

Lemma value_lt_asym u v : value_lt u v -> value_ltb v u = Some false.
Proof.
  intros Huv. destruct (value_ltb v u) as [[]|] eqn:E.
  - destruct (value_lt_irrefl u). eapply value_lt_trans; eauto.
  - reflexivity.
  - destruct u, v; unfold value_lt in Huv; simpl in *; congruence.
Qed.

Lemma value_lt_sorted_NoDup l : StronglySorted value_lt l -> NoDup l.
Proof.
  induction 1 as [|z l Hs IH Hz]; constructor; [|exact IH].
  intros Hin. rewrite Forall_forall in Hz.
  exact (value_lt_irrefl z (Hz z Hin)).
Qed.

(** Two strictly sorted lists with the same elements are the same list. *)
Lemma sorted_ext {A} (R : A -> A -> Prop) (l1 l2 : list A) :
  (forall x, ~ R x x) -> (forall x y z, R x y -> R y z -> R x z) ->
  StronglySorted R l1 -> StronglySorted R l2 ->
  (forall x, x ∈ l1 <-> x ∈ l2) -> l1 = l2.
Proof.
  intros Hirr Htr H1. revert l2.
  induction H1 as [|a l1 Hs1 IH Ha]; intros l2 H2 Heq.
  - destruct l2 as [|b l2]; [reflexivity|].
    exfalso. apply (not_elem_of_nil b), Heq. left.
  - destruct H2 as [|b l2 Hs2 Hb].
    + exfalso. apply (not_elem_of_nil a), Heq. left.
    + rewrite Forall_forall in Ha, Hb.
      assert (a = b) as <-.
      { assert (Hb1 : b ∈ a :: l1) by (apply Heq; left).
        assert (Ha2 : a ∈ b :: l2) by (apply Heq; left).
        apply elem_of_cons in Hb1 as [Hb1|Hb1]; [done|].
        apply elem_of_cons in Ha2 as [Ha2|Ha2]; [done|].
        destruct (Hirr a). eapply Htr; [apply Ha, Hb1 | apply Hb, Ha2]. }
      f_equal. apply IH; [exact Hs2|].
      intros x. split; intros Hx.
      * assert (Hx' : x ∈ a :: l2) by (apply Heq; by right).
        apply elem_of_cons in Hx' as [->|Hx']; [|done].
        destruct (Hirr a). by apply Ha.
      * assert (Hx' : x ∈ a :: l1) by (apply Heq; by right).
        apply elem_of_cons in Hx' as [->|Hx']; [|done].
        destruct (Hirr a). by apply Hb.
Qed.

Lemma StronglySorted_fmap {A B} (R : A -> A -> Prop) (S : B -> B -> Prop)
  (f : A -> B) l :
  (forall x y, R x y -> S (f x) (f y)) ->
  StronglySorted R l -> StronglySorted S (f <$> l).
Proof.
  intros Hf. induction 1 as [|a l Hs IH Ha]; simpl; constructor; [exact IH|].
  apply Forall_fmap. eapply Forall_impl; [exact Ha|]. intros x Hx. by apply Hf.
Qed.

(** ** [np.unique] *)

Lemma elem_of_np_unique X v : v ∈ np_unique X <-> v ∈ values X.
Proof.
  destruct X as [l|l]; simpl; rewrite !list_elem_of_fmap.
  - split; intros (x & -> & Hx); exists x; split; try done;
      by apply (elem_of_unique String.compare).
  - split; intros (x & -> & Hx); exists x; split; try done;
      by apply (elem_of_unique Z.compare).
Qed.

Lemma np_unique_sorted X : StronglySorted value_lt (np_unique X).
Proof.
  destruct X as [l|l]; simpl.
  - eapply StronglySorted_fmap; [|apply (unique_sorted String.compare)].
    intros x y. by rewrite value_lt_str.
  - eapply StronglySorted_fmap; [|apply (unique_sorted Z.compare)].
    intros x y. by rewrite value_lt_num.
Qed.

Lemma np_unique_NoDup X : NoDup (np_unique X).
Proof. apply value_lt_sorted_NoDup, np_unique_sorted. Qed.

(** ** [labelencoder]: the probing loops *)

Lemma string_length_app (s t : string) :
  String.length (s +:+ t) = String.length s + String.length t.
Proof. induction s as [|a s IH]; simpl; [reflexivity|]. by rewrite IH. Qed.

Lemma py_in_true v l : py_in v l = true <-> v ∈ l.
Proof. unfold py_in. apply bool_decide_eq_true. Qed.

Lemma py_in_false v l : py_in v l = false <-> v ∉ l.
Proof. unfold py_in. apply bool_decide_eq_false. Qed.

(** The string loop leaves: the candidates it has tried are distinct
    elements of [l], and [l] is finite. *)
Lemma probe_t1_tried (fuel : nat) (l acc : list value) (t1 : string) :
  NoDup acc -> (forall v, v ∈ acc -> v ∈ l) ->
  Forall (fun v => exists s, v = VStr s /\ String.length s < String.length t1) acc ->
  length l < length acc + fuel ->
  exists t, LabelEncoder.probe_t1 fuel l t1 = Some t /\ VStr t ∉ l.
Proof.
  revert acc t1. induction fuel as [|fuel IH]; intros acc t1 Hnd Hsub Hlen Hfuel.
  - exfalso. apply NoDup_submseteq in Hsub; [|exact Hnd].
    apply submseteq_length in Hsub. lia.
  - simpl. destruct (py_in (VStr t1) l) eqn:E.
    + apply py_in_true in E.
      apply (IH (VStr t1 :: acc)).
      * constructor; [|exact Hnd]. intros Hin.
        rewrite Forall_forall in Hlen.
        destruct (Hlen _ Hin) as (s & [= <-] & Hs). lia.
      * intros v [->|Hv]%elem_of_cons; auto.
      * constructor.
        -- exists t1. split; [reflexivity|]. rewrite string_length_app. simpl. lia.
        -- eapply Forall_impl; [exact Hlen|].
           intros v (s & -> & Hs). exists s. split; [reflexivity|].
           rewrite string_length_app. lia.
      * simpl. lia.
    + apply py_in_false in E. eauto.
Qed.

Lemma probe_t1_terminates (fuel : nat) (l : list value) (t1 : string) :
  length l < fuel ->
  exists t, LabelEncoder.probe_t1 fuel l t1 = Some t /\ VStr t ∉ l.
Proof.
  intros Hfuel. apply (probe_t1_tried fuel l [] t1).
  - constructor.
  - intros v Hv. by apply not_elem_of_nil in Hv.
  - constructor.
  - simpl. lia.
Qed.

Lemma probe_t1_absent fuel l t1 t :
  LabelEncoder.probe_t1 fuel l t1 = Some t -> VStr t ∉ l.
Proof.
  revert t1. induction fuel as [|fuel IH]; intros t1; simpl; [discriminate|].
  destruct (py_in (VStr t1) l) eqn:E; [apply IH|].
  intros [= <-]. by apply py_in_false.
Qed.

Lemma probe_t2_absent fuel l t2 t :
  LabelEncoder.probe_t2 fuel l t2 = Some t -> VNum t ∉ l.
Proof.
  revert t2. induction fuel as [|fuel IH]; intros t2; simpl; [discriminate|].
  destruct (py_in (VNum t2) l) eqn:E; [apply IH|].
  intros [= <-]. by apply py_in_false.
Qed.

(** Once the numeric candidate is [0] it stays [0]. *)
Lemma probe_t2_zero_stuck fuel l :
  VNum 0 ∈ l -> LabelEncoder.probe_t2 fuel l 0 = None.
Proof.
  intros Hin. induction fuel as [|fuel IH]; simpl; [reflexivity|].
  apply py_in_true in Hin. rewrite Hin. exact IH.
Qed.

Lemma probe_t2_spec fuel l :
  LabelEncoder.probe_t2 (S (S fuel)) l (-999) =
    if bool_decide (VNum (-999) ∈ l)
    then if bool_decide (VNum 0 ∈ l) then None else Some 0%Z
    else Some (-999)%Z.
Proof.
  cbn [LabelEncoder.probe_t2]. unfold py_in.
  destruct (bool_decide (VNum (-999) ∈ l)); [|reflexivity].
  change (-999 - -999)%Z with 0%Z.
  destruct (bool_decide (VNum 0 ∈ l)) eqn:E; [|reflexivity].
  apply bool_decide_eq_true in E.
  destruct fuel as [|fuel]; [reflexivity|].
  change (0 - 0)%Z with 0%Z. by apply probe_t2_zero_stuck.
Qed.

(** ** [labelencoder]: sorted insertion and codes *)

Lemma value_ltb_total x y :
  value_ltb y x = Some false -> x <> y -> value_lt x y.
Proof.
  destruct x as [s|m], y as [t|n]; simpl; try discriminate.
  - unfold String.ltb. intros E Hne. apply value_lt_str. unfold compare_lt.
    rewrite (cmp_antisym (cmp := String.compare) t s).
    destruct (String.compare t s) eqn:C; try discriminate; [|reflexivity].
    apply cmp_eq in C. congruence.
  - intros [= E] Hne. apply value_lt_num. unfold compare_lt.
    apply Z.ltb_ge in E. apply Z.compare_lt_iff.
    assert (m <> n) by congruence. lia.
Qed.

(** In a strictly sorted list the code of an element is its position. *)
Lemma bisect_left_index cl v i :
  StronglySorted value_lt cl -> cl !! i = Some v ->
  LabelEncoder.bisect_left cl v = Ok i.
Proof.
  intros Hs. revert i. induction Hs as [|a l Hs IH Ha]; intros i Hi.
  - by rewrite lookup_nil in Hi.
  - destruct i as [|i]; simpl in *.
    + injection Hi as ->. by rewrite value_ltb_irrefl.
    + rewrite Forall_forall in Ha.
      assert (Hav : value_lt a v) by (apply Ha; by eapply list_elem_of_lookup_2).
      unfold value_lt in Hav. rewrite Hav, (IH i Hi). reflexivity.
Qed.

Lemma insort_left_spec a x :
  StronglySorted value_lt a -> x ∉ a ->
  Forall (fun y => is_Some (value_ltb y x)) a ->
  exists a', LabelEncoder.insort_left a x = Ok a' /\
             StronglySorted value_lt a' /\
             forall v, v ∈ a' <-> v = x \/ v ∈ a.
Proof.
  unfold LabelEncoder.insort_left.
  induction 1 as [|y a Hs IH Hy]; intros Hx Hk.
  - exists [x]. split; [reflexivity|]. split; [repeat constructor|].
    intros v. by rewrite !elem_of_cons.
  - apply not_elem_of_cons in Hx as [Hxy Hx].
    apply Forall_cons in Hk as [[b Hb] Hk].
    destruct (IH Hx Hk) as (a' & Ea' & Hs' & Hin').
    simpl. rewrite Hb. destruct b.
    + destruct (LabelEncoder.bisect_left a x) as [i|e]; [|discriminate].
      simpl in *. injection Ea' as <-.
      eexists. split; [reflexivity|]. split.
      * constructor; [exact Hs'|].
        apply Forall_forall. intros v [->|Hv]%Hin'; [exact Hb|].
        rewrite Forall_forall in Hy. by apply Hy.
      * intros v. rewrite !elem_of_cons, Hin'. tauto.
    + simpl. eexists. split; [reflexivity|].
      assert (Hlt : value_lt x y) by (by apply value_ltb_total).
      split.
      * constructor; [by constructor|].
        constructor; [exact Hlt|].
        eapply Forall_impl; [exact Hy|].
        intros v Hv. by eapply value_lt_trans.
      * intros v. rewrite !elem_of_cons. tauto.
Qed.

Lemma insort_left_mixed a z s :
  LabelEncoder.insort_left (VNum z :: a) (VStr s) = Raise TypeError.
Proof. reflexivity. Qed.

(** What a returning [fit] leaves in the object. *)
Lemma labelencoder_fit_inv fuel st X st' r :
  LabelEncoder.fit fuel st X = Some (st', r) ->
  r = Ok tt /\
  exists u cl,
    st' = {| LabelEncoder.unknown := Some u;
             LabelEncoder.encoder := Some {| LabelEncoder.classes_ := cl |} |} /\
    (u ∉ values X) /\
    StronglySorted value_lt cl /\
    (forall v, v ∈ cl <-> v = u \/ v ∈ values X).
Proof.
  unfold LabelEncoder.fit.
  destruct (LabelEncoder.probe_t1 fuel (np_unique X) "<unknown>") as [t1|] eqn:E1;
    [|discriminate].
  destruct (LabelEncoder.probe_t2 fuel (np_unique X) (-999)) as [t2|] eqn:E2;
    [|discriminate].
  apply probe_t1_absent in E1. apply probe_t2_absent in E2.
  pose proof (np_unique_sorted X) as Hs.
  assert (Hstr : forall x, (forall v, v ∈ np_unique X -> is_Some (value_ltb v x)) ->
            (x ∉ np_unique X) ->
            exists a', LabelEncoder.insort_left (np_unique X) x = Ok a' /\
              StronglySorted value_lt a' /\
              forall v, v ∈ a' <-> v = x \/ v ∈ values X).
  { intros x Hk Hx.
    destruct (insort_left_spec (np_unique X) x Hs Hx) as (a' & Ea & Hsa & Hin).
    - by apply Forall_forall.
    - exists a'. split; [done|]. split; [done|].
      intros v. by rewrite Hin, elem_of_np_unique. }
  simpl LabelEncoder.classes_.
  destruct X as [l|l].
  - destruct (Hstr (VStr t1)) as (a' & -> & Hsa & Hin); [|exact E1|].
    { simpl. intros v (s & -> & _)%list_elem_of_fmap. by eexists. }
    intros [= <- <-]. split; [reflexivity|].
    exists (VStr t1), a'. split; [reflexivity|].
    split; [by rewrite <- elem_of_np_unique|]. by split.
  - pose proof (elem_of_np_unique (NumCol l)) as Hel.
    destruct (np_unique (NumCol l)) as [|v0 a] eqn:Eu.
    + simpl. intros [= <- <-]. split; [reflexivity|].
      exists (VStr t1), [VStr t1].
      split; [reflexivity|]. split.
      { intros Hin. apply Hel in Hin. by apply not_elem_of_nil in Hin. }
      split; [repeat constructor|].
      intros v. rewrite <- Hel, !elem_of_cons. tauto.
    + assert (exists z, v0 = VNum z) as [z ->].
      { simpl in Eu. destruct (unique Z.compare l); simplify_eq/=. by eexists. }
      rewrite insort_left_mixed. rewrite <- Eu in *.
      destruct (Hstr (VNum t2)) as (a' & -> & Hsa & Hin); [|exact E2|].
      { simpl. intros v (n & -> & _)%list_elem_of_fmap. by eexists. }
      intros [= <- <-]. split; [reflexivity|].
      exists (VNum t2), a'. split; [reflexivity|].
      split; [by rewrite <- elem_of_np_unique|]. by split.
Qed.

(** ** [labelencoder]: [fit] returns, [transform] looks codes up *)

Lemma length_insert_uniq {A} (cmp : A -> A -> comparison) x l :
  length (insert_uniq cmp x l) <= S (length l).
Proof.
  induction l as [|y l IH]; simpl; [lia|].
  destruct (cmp x y); simpl; lia.
Qed.

Lemma length_unique_le {A} (cmp : A -> A -> comparison) l :
  length (unique cmp l) <= length l.
Proof.
  induction l as [|x l IH]; simpl; [lia|].
  pose proof (length_insert_uniq cmp x (unique cmp l)). lia.
Qed.

Lemma length_np_unique_le X : length (np_unique X) <= length (values X).
Proof.
  destruct X as [l|l]; simpl; rewrite !length_fmap; apply length_unique_le.
Qed.

Lemma labelencoder_fit_some fuel st X st' r :
  LabelEncoder.fit fuel st X = Some (st', r) -> r = Ok tt.
Proof. intros Hfit. by apply labelencoder_fit_inv in Hfit as [-> _]. Qed.

(** On a column of strings [fit] returns as soon as the fuel exceeds the
    length of the column. *)
Lemma labelencoder_fit_str fuel st l :
  length l < fuel ->
  exists st', LabelEncoder.fit fuel st (StrCol l) = Some (st', Ok tt).
Proof.
  intros Hfuel.
  destruct (LabelEncoder.fit fuel st (StrCol l)) as [[st' r]|] eqn:E.
  - pose proof (labelencoder_fit_some _ _ _ _ _ E) as ->. by exists st'.
  - exfalso. unfold LabelEncoder.fit in E.
    destruct (probe_t1_terminates fuel (np_unique (StrCol l)) "<unknown>")
      as (t & Et & _).
    { pose proof (length_np_unique_le (StrCol l)) as Hle.
      simpl in Hle. rewrite !length_fmap in Hle. simpl. rewrite length_fmap. lia. }
    rewrite Et in E.
    destruct fuel as [|fuel]; [lia|].
    assert (Hp : LabelEncoder.probe_t2 (S fuel) (np_unique (StrCol l)) (-999)
                 = Some (-999)%Z).
    { simpl. assert (Hn : py_in (VNum (-999)) (VStr <$> unique String.compare l) = false).
      { apply py_in_false. by intros (s & [=] & _)%list_elem_of_fmap. }
      by rewrite Hn. }
    rewrite Hp in E.
    destruct (LabelEncoder.insort_left _ (VStr t)); [discriminate|].
    destruct (LabelEncoder.insort_left _ (VNum (-999))); discriminate.
Qed.

(** On a column of numbers [fit] is still running after any number of
    tests exactly when both [-999] and [0] were observed. *)
Lemma labelencoder_fit_num fuel st l :
  LabelEncoder.fit (S (S fuel)) st (NumCol l) = None <->
  (-999)%Z ∈ l /\ 0%Z ∈ l.
Proof.
  assert (Hin : forall z, VNum z ∈ np_unique (NumCol l) <-> z ∈ l).
  { intros z. rewrite elem_of_np_unique. simpl. rewrite list_elem_of_fmap.
    split; [by intros (y & [= ->] & Hy)|]. intros Hz. by exists z. }
  unfold LabelEncoder.fit.
  assert (Ht1 : LabelEncoder.probe_t1 (S (S fuel)) (np_unique (NumCol l)) "<unknown>"
                = Some "<unknown>").
  { simpl. assert (Hn : py_in (VStr "<unknown>") (VNum <$> unique Z.compare l) = false).
    { apply py_in_false. by intros (s & [=] & _)%list_elem_of_fmap. }
    by rewrite Hn. }
  rewrite Ht1, probe_t2_spec.
  repeat case_bool_decide; rewrite !Hin in *.
  - tauto.
  - split; [|tauto].
    destruct (LabelEncoder.insort_left _ (VStr _)); [discriminate|].
    destruct (LabelEncoder.insort_left _ (VNum _)); discriminate.
  - split; [|tauto].
    destruct (LabelEncoder.insort_left _ (VStr _)); [discriminate|].
    destruct (LabelEncoder.insort_left _ (VNum _)); discriminate.
Qed.

Lemma replace_unseen_some cl u vs :
  LabelEncoder.replace_unseen cl (Some u) vs
  = Ok ((fun v => if py_in v cl then v else u) <$> vs).
Proof.
  induction vs as [|v vs IH]; simpl; [reflexivity|].
  rewrite IH. by destruct (py_in v cl).
Qed.

Lemma searchsorted_spec cl ys :
  StronglySorted value_lt cl -> Forall (fun y => y ∈ cl) ys ->
  exists codes, LabelEncoder.searchsorted cl ys = Ok codes /\
                Forall2 (fun y c => cl !! c = Some y) ys codes.
Proof.
  intros Hs. induction 1 as [|y ys Hy Hys (codes & Ec & Hc)]; simpl.
  - exists []. by split.
  - apply list_elem_of_lookup in Hy as [i Hi].
    rewrite (bisect_left_index cl y i Hs Hi), Ec. simpl.
    exists (i :: codes). split; [reflexivity|]. by constructor.
Qed.

(** After [fit], [transform] returns one code per value: the position in
    [classes_] of the value itself when it is there, of the sentinel
    otherwise. *)
Lemma labelencoder_transform_spec u cl X :
  StronglySorted value_lt cl -> u ∈ cl ->
  let st := {| LabelEncoder.unknown := Some u;
               LabelEncoder.encoder := Some {| LabelEncoder.classes_ := cl |} |} in
  exists codes,
    LabelEncoder.transform st X = (st, Ok codes) /\
    Forall2 (fun v c => cl !! c = Some (if bool_decide (v ∈ cl) then v else u))
      (values X) codes.
Proof.
  intros Hs Hu st. unfold LabelEncoder.transform. simpl.
  rewrite replace_unseen_some. simpl.
  set (ys := (fun v => if py_in v cl then v else u) <$> values X).
  assert (Hall : Forall (fun y => y ∈ cl) ys).
  { apply Forall_fmap, Forall_forall. intros v _. simpl.
    destruct (py_in v cl) eqn:E; [by apply py_in_true|exact Hu]. }
  destruct (searchsorted_spec cl ys Hs Hall) as (codes & Ec & Hc).
  exists codes. split.
  - unfold LabelEncoder.sk_transform. simpl.
    assert (Hf : forallb (fun v => py_in v cl) ys = true).
    { apply Is_true_true, forallb_True. eapply Forall_impl; [exact Hall|].
      intros y Hy. apply Is_true_true. by apply py_in_true. }
    by rewrite Hf, Ec.
  - subst ys. apply Forall2_fmap_l in Hc.
    eapply Forall2_impl; [exact Hc|]. intros v c. simpl. by unfold py_in.
Qed.

(** C3 (defect in the code).  The claim asks both probing loops of
    [labelencoder.fit] to terminate with a sentinel that was not
    observed.  The string loop does ([probe_t1_terminates]); the numeric
    loop does not: [t2 -= t2] turns the candidate [-999] into [0] and
    leaves [0] at [0], so on the column [[-999, 0]] the loop is still
    running after any number of tests and [fit] never returns. *)
Theorem labelencoder_fit_numeric_probe_diverges :
  forall fuel st, LabelEncoder.fit fuel st (NumCol [-999; 0]%Z) = None.
Proof.
  intros [|[|fuel]] st; [reflexivity|reflexivity|].
  apply labelencoder_fit_num. split.
  - apply list_elem_of_here.
  - apply list_elem_of_further, list_elem_of_here.
Qed.

(** C4 (defect in the code).  The class docstring promises that every
    unknown value is encoded to [0].  After [fit(['1','2'])] the sentinel
    ['<unknown>'] sorts behind both categories, so
    [transform(['1','v','d'])] gives the two unseen values the code [2]
    and the code [0] to the seen value ['1']. *)
Theorem labelencoder_unknown_code_not_zero :
  exists st,
    LabelEncoder.fit 3 LabelEncoder.new (StrCol ["1"; "2"]) = Some (st, Ok tt) /\
    LabelEncoder.transform st (StrCol ["1"; "v"; "d"]) = (st, Ok [0; 2; 2]).
Proof. eexists. split; vm_compute; reflexivity. Qed.

(** The documented example: [fit(['a','b','c'])] then
    [transform(['a','v','d'])] returns [[1, 0, 0]]. *)
Example labelencoder_documented_example :
  exists st,
    LabelEncoder.fit 4 LabelEncoder.new (StrCol ["a"; "b"; "c"]) = Some (st, Ok tt) /\
    LabelEncoder.transform st (StrCol ["a"; "v"; "d"]) = (st, Ok [1; 0; 0]).
Proof. eexists. split; vm_compute; reflexivity. Qed.

(** ** [onehotencoder] *)

Lemma sorted_lookup_lt {A} (R : A -> A -> Prop) (l : list A) i j x y :
  StronglySorted R l -> i < j -> l !! i = Some x -> l !! j = Some y -> R x y.
Proof.
  intros Hs. revert i j. induction Hs as [|a l Hs IH Ha]; intros i j Hij Hi Hj.
  - by rewrite lookup_nil in Hi.
  - destruct j as [|j]; [lia|]. destruct i as [|i]; simpl in *.
    + injection Hi as ->. rewrite Forall_forall in Ha.
      apply Ha. by eapply list_elem_of_lookup_2.
    + apply (IH i j); [lia|done|done].
Qed.

(** Positions in a sorted list grow with the elements. *)
Lemma sorted_index_lt cl i j x y :
  StronglySorted value_lt cl -> cl !! i = Some x -> cl !! j = Some y ->
  value_lt x y -> i < j.
Proof.
  intros Hs Hi Hj Hxy.
  destruct (decide (i < j)) as [|Hge]; [done|]. exfalso.
  destruct (decide (i = j)) as [->|Hne].
  - rewrite Hi in Hj. injection Hj as ->. by apply (value_lt_irrefl y).
  - assert (Hyx : value_lt y x).
    { apply (sorted_lookup_lt value_lt cl j i); [done|lia|done|done]. }
    apply (value_lt_irrefl x). by eapply value_lt_trans.
Qed.

Lemma codes_sorted cl ks cs :
  StronglySorted value_lt cl -> StronglySorted value_lt ks ->
  Forall2 (fun k c => cl !! c = Some k) ks cs ->
  StronglySorted (compare_lt Nat.compare) cs.
Proof.
  intros Hcl Hks H2. induction H2 as [|k c ks cs Hkc H2 IH]; [constructor|].
  apply StronglySorted_inv in Hks as [Hks Hk].
  constructor; [by apply IH|].
  apply Forall_forall. intros c' Hc'.
  apply list_elem_of_lookup in Hc' as [i Hi].
  destruct (Forall2_lookup_r _ _ _ _ _ H2 Hi) as (k' & Hk' & Hkc').
  unfold compare_lt. apply Nat.compare_lt_iff.
  apply (sorted_index_lt cl c c' k k'); [done|done|done|].
  rewrite Forall_forall in Hk. apply Hk. by eapply list_elem_of_lookup_2.
Qed.

(** The active columns of the fitted one-hot encoder are the codes of
    the distinct fit-time categories, in the order of the categories. *)
Lemma active_features_spec cl X cX :
  StronglySorted value_lt cl -> (forall v, v ∈ values X -> v ∈ cl) ->
  Forall2 (fun v c => cl !! c = Some v) (values X) cX ->
  Forall2 (fun k a => cl !! a = Some k) (np_unique X) (unique Nat.compare cX).
Proof.
  intros Hcl Hsub HX.
  pose proof (value_lt_sorted_NoDup cl Hcl) as Hnd.
  destruct (searchsorted_spec cl (np_unique X) Hcl) as (A' & _ & HA).
  { apply Forall_forall. intros k Hk. by apply Hsub, elem_of_np_unique. }
  assert (A' = unique Nat.compare cX) as <-; [|exact HA].
  apply (sorted_ext (compare_lt Nat.compare)).
  - apply (compare_lt_irrefl Nat.compare).
  - apply (cmp_trans (cmp := Nat.compare)).
  - eapply codes_sorted; [exact Hcl|apply np_unique_sorted|exact HA].
  - apply (unique_sorted Nat.compare).
  - intros a. rewrite (elem_of_unique Nat.compare). split.
    + intros [i Hi]%list_elem_of_lookup.
      destruct (Forall2_lookup_r _ _ _ _ _ HA Hi) as (k & Hk & Hka).
      apply list_elem_of_lookup_2, elem_of_np_unique in Hk.
      apply list_elem_of_lookup in Hk as [j Hj].
      destruct (Forall2_lookup_l _ _ _ _ _ HX Hj) as (c & Hc & Hkc).
      rewrite (NoDup_lookup cl a c k Hnd Hka Hkc).
      by eapply list_elem_of_lookup_2.
    + intros [i Hi]%list_elem_of_lookup.
      destruct (Forall2_lookup_r _ _ _ _ _ HX Hi) as (k & Hk & Hka).
      apply list_elem_of_lookup_2, elem_of_np_unique in Hk.
      apply list_elem_of_lookup in Hk as [j Hj].
      destruct (Forall2_lookup_l _ _ _ _ _ HA Hj) as (c & Hc & Hkc).
      rewrite (NoDup_lookup cl a c k Hnd Hka Hkc).
      by eapply list_elem_of_lookup_2.
Qed.

Lemma onehot_row_indicator cl ks cs c w :
  NoDup cl -> Forall2 (fun k a => cl !! a = Some k) ks cs -> cl !! c = Some w ->
  OneHotEncoder.onehot_row cs c = indicator_row ks w.
Proof.
  intros Hnd H2 Hc. unfold OneHotEncoder.onehot_row, indicator_row.
  induction H2 as [|k a ks cs Hka H2 IH]; [reflexivity|].
  rewrite !fmap_cons, IH. f_equal.
  repeat case_bool_decide; try reflexivity; exfalso.
  - subst a. rewrite Hka in Hc. congruence.
  - subst k. by pose proof (NoDup_lookup cl a c w Hnd Hka Hc).
Qed.

(** ** The rows of [indicator_row] *)

Lemma length_indicator_row cats v : length (indicator_row cats v) = length cats.
Proof. unfold indicator_row. by rewrite length_fmap. Qed.

Lemma indicator_row_unseen cats v :
  v ∉ cats -> indicator_row cats v = replicate (length cats) 0%Z.
Proof.
  unfold indicator_row. induction cats as [|k cats IH]; [reflexivity|].
  intros [Hne Hv]%not_elem_of_cons. rewrite fmap_cons, IH by done.
  by rewrite bool_decide_eq_false_2 by congruence.
Qed.

Lemma row_sum_zeros n : row_sum (replicate n 0%Z) = 0%Z.
Proof. induction n as [|n IH]; simpl; [reflexivity|]. by rewrite IH. Qed.

Lemma row_sum_cons a row : row_sum (a :: row) = (a + row_sum row)%Z.
Proof. reflexivity. Qed.

Lemma indicator_row_cons k cats v :
  indicator_row (k :: cats) v
  = (if bool_decide (k = v) then 1%Z else 0%Z) :: indicator_row cats v.
Proof. reflexivity. Qed.

Lemma indicator_row_seen cats v :
  NoDup cats -> v ∈ cats -> row_sum (indicator_row cats v) = 1%Z.
Proof.
  induction 1 as [|k cats Hk Hnd IH]; intros Hv.
  - by apply not_elem_of_nil in Hv.
  - rewrite indicator_row_cons, row_sum_cons.
    case_bool_decide as E.
    + subst k. rewrite indicator_row_unseen by done. by rewrite row_sum_zeros.
    + apply elem_of_cons in Hv as [->|Hv]; [done|].
      rewrite IH by done. reflexivity.
Qed.

Lemma Forall2_impl_elem {A B} (P Q : A -> B -> Prop) l k :
  Forall2 P l k -> (forall x y, x ∈ l -> P x y -> Q x y) -> Forall2 Q l k.
Proof.
  induction 1 as [|x y l k Hxy H2 IH]; intros HPQ; constructor.
  - apply HPQ; [left|done].
  - apply IH. intros x' y' Hx'. apply HPQ. by right.
Qed.

Lemma Forall2_fmap_eq {A B C} (f : A -> C) (g : B -> C) l k :
  Forall2 (fun x y => f x = g y) l k -> f <$> l = g <$> k.
Proof. induction 1 as [|x y l k Hxy H2 IH]; [reflexivity|]. by rewrite !fmap_cons, Hxy, IH. Qed.

(** What a successful [fit] leaves in the object. *)
Lemma onehot_fit_inv fuel st X st' :
  OneHotEncoder.fit fuel st X = Some (st', Ok tt) ->
  exists u cl cX,
    st' = {| OneHotEncoder.handle_unknown := OneHotEncoder.handle_unknown st;
             OneHotEncoder.le :=
               Some {| LabelEncoder.unknown := Some u;
                       LabelEncoder.encoder :=
                         Some {| LabelEncoder.classes_ := cl |} |};
             OneHotEncoder.encoder :=
               Some {| OneHotEncoder.n_values_ := S (max_list cX);
                       OneHotEncoder.active_features_ :=
                         unique Nat.compare cX |} |} /\
    (u ∉ values X) /\
    StronglySorted value_lt cl /\
    (forall v, v ∈ cl <-> v = u \/ v ∈ values X) /\
    Forall2 (fun v c => cl !! c = Some v) (values X) cX /\
    cX <> [].
Proof.
  unfold OneHotEncoder.fit.
  destruct (LabelEncoder.fit fuel LabelEncoder.new X) as [[le0 r]|] eqn:E;
    [|discriminate].
  apply labelencoder_fit_inv in E as (-> & u & cl & -> & Hu & Hs & Hin).
  destruct (labelencoder_transform_spec u cl X Hs) as (codes & Et & Hc).
  { apply Hin. by left. }
  simpl in Et. rewrite Et.
  destruct codes as [|c codes]; simpl; [discriminate|].
  intros [= <-]. exists u, cl, (c :: codes).
  split; [reflexivity|]. split; [exact Hu|]. split; [exact Hs|].
  split; [exact Hin|]. split; [|discriminate].
  eapply Forall2_impl_elem; [exact Hc|].
  intros v c' Hv Hl. simpl in Hl.
  rewrite bool_decide_eq_true_2 in Hl; [exact Hl|]. apply Hin. by right.
Qed.

Lemma indicator_row_replace (cl : list value) u X v :
  (u ∉ values X) -> (forall k, k ∈ cl <-> k = u \/ k ∈ values X) ->
  indicator_row (np_unique X) (if bool_decide (v ∈ cl) then v else u)
  = indicator_row (np_unique X) v.
Proof.
  intros Hu Hin. case_bool_decide as Hv; [reflexivity|].
  unfold indicator_row. apply Forall_fmap_ext_1, Forall_forall.
  intros k Hk%elem_of_np_unique.
  rewrite !bool_decide_eq_false_2; [reflexivity| |].
  - intros ->. apply Hv, Hin. by right.
  - by intros ->.
Qed.

(** C2 (amended).  After a successful [fit] on [X], [transform] on a
    non-empty [X'] returns one row per value, each the basis vector of
    the value over the distinct fit-time categories: its width is the
    number of distinct fit-time categories (the sentinel has no column),
    it sums to one for a value seen by [fit] and is all zeros for a value
    not seen.  The rows are returned whenever the encoder was built with
    [handle_unknown='ignore'], or every value of [X'] was seen by [fit],
    or the sentinel sorts below some fit-time category. *)
Theorem onehot_transform_rows fuel st X st' X' :
  OneHotEncoder.fit fuel st X = Some (st', Ok tt) ->
  values X' <> [] ->
  (OneHotEncoder.handle_unknown st = OneHotEncoder.HU_ignore \/
   (forall v, v ∈ values X' -> v ∈ values X) \/
   (exists w, w ∈ values X /\ forall u, sentinel st' = Some u -> value_lt u w)) ->
  OneHotEncoder.transform st' X'
    = (st', Ok (indicator_row (np_unique X) <$> values X')) /\
  Forall2 (fun v row =>
             length row = length (np_unique X) /\
             (v ∈ values X -> row_sum row = 1%Z) /\
             (v ∉ values X -> row = replicate (length (np_unique X)) 0%Z))
    (values X') (indicator_row (np_unique X) <$> values X').
Proof.
  intros Hfit Hne Hcase. split.
  - apply onehot_fit_inv in Hfit
      as (u & cl & cX & -> & Hu & Hs & Hin & HX & HcX).
    pose proof (value_lt_sorted_NoDup cl Hs) as Hnd.
    destruct (labelencoder_transform_spec u cl X' Hs) as (cX' & Et & HX').
    { apply Hin. by left. }
    unfold OneHotEncoder.transform.
    cbn [OneHotEncoder.le OneHotEncoder.encoder OneHotEncoder.handle_unknown].
    cbv zeta in Et. rewrite Et.
    cbn [OneHotEncoder.le OneHotEncoder.encoder OneHotEncoder.handle_unknown].
    assert (Hact : Forall2 (fun k a => cl !! a = Some k) (np_unique X)
                     (unique Nat.compare cX)).
    { apply active_features_spec; [done| |done]. intros v Hv. apply Hin. by right. }
    assert (Hrows : OneHotEncoder.onehot_row (unique Nat.compare cX) <$> cX'
                    = indicator_row (np_unique X) <$> values X').
    { symmetry. apply Forall2_fmap_eq.
      eapply Forall2_impl; [exact HX'|]. intros v c Hc. simpl in Hc.
      rewrite (onehot_row_indicator cl _ _ c _ Hnd Hact Hc).
      symmetry. by apply indicator_row_replace. }
    unfold OneHotEncoder.sk_transform.
    cbn [OneHotEncoder.n_values_ OneHotEncoder.active_features_].
    destruct cX' as [|c0 cX'].
    { apply Forall2_length in HX'. destruct (values X'); [done|discriminate]. }
    rewrite Hrows.
    destruct (forallb _ (c0 :: cX')) eqn:Hall; [reflexivity|].
    destruct Hcase as [->|Hcase]; [reflexivity|].
    exfalso. apply not_true_iff_false in Hall. apply Hall.
    apply Is_true_true, forallb_True, Forall_forall. intros c Hc.
    apply Is_true_true, Nat.ltb_lt.
    apply list_elem_of_lookup in Hc as [i Hi].
    destruct (Forall2_lookup_r _ _ _ _ _ HX' Hi) as (v & Hv & Hvc).
    simpl in Hvc. apply list_elem_of_lookup_2 in Hv.
    set (w := if bool_decide (v ∈ cl) then v else u) in *.
    assert (Hseen : forall k a, k ∈ values X -> cl !! a = Some k ->
                      a <= max_list cX).
    { intros k a [j Hj]%list_elem_of_lookup Ha.
      destruct (Forall2_lookup_l _ _ _ _ _ HX Hj) as (a' & Ha' & Hka').
      rewrite (NoDup_lookup cl a a' k Hnd Ha Hka').
      apply max_list_elem_of_le. by eapply list_elem_of_lookup_2. }
    assert (Hw : w = u \/ w ∈ values X).
    { apply Hin. by eapply list_elem_of_lookup_2. }
    destruct Hw as [Hw|Hw]; [|specialize (Hseen w c Hw Hvc); lia].
    destruct Hcase as [Hall'|(w0 & Hw0 & Hlt)].
    + exfalso. apply Hu. rewrite <- Hw. subst w.
      rewrite bool_decide_eq_true_2; [by apply Hall'|].
      apply Hin. right. by apply Hall'.
    + assert (Hw0cl : w0 ∈ cl) by (apply Hin; by right).
      apply list_elem_of_lookup in Hw0cl as [j Hj].
      specialize (Hseen w0 j Hw0 Hj).
      assert (c < j); [|lia].
      apply (sorted_index_lt cl c j w w0); [done|done|done|].
      rewrite Hw. by apply Hlt.
  - apply Forall2_fmap_r, Forall_Forall2_diag, Forall_forall.
    intros v _. simpl. split; [apply length_indicator_row|]. split.
    + intros Hv. apply indicator_row_seen; [apply np_unique_NoDup|].
      by apply elem_of_np_unique.
    + intros Hv. apply indicator_row_unseen. by rewrite elem_of_np_unique.
Qed.

Lemma onehot_transform_rows_witness :
  let X := StrCol ["a"; "b"; "c"] in
  let X' := StrCol ["a"; "v"; "d"] in
  exists st',
    OneHotEncoder.fit 4 (OneHotEncoder.init OneHotEncoder.HU_error) X
      = Some (st', Ok tt) /\
    OneHotEncoder.transform st' X'
      = (st', Ok [[1; 0; 0]; [0; 0; 0]; [0; 0; 0]]%Z).
Proof.
  intros X X'. eexists. split; [vm_compute; reflexivity|].
  refine (proj1 (onehot_transform_rows 4
                   (OneHotEncoder.init OneHotEncoder.HU_error) X _ X' _ _ _)).
  - vm_compute. reflexivity.
  - discriminate.
  - right. right. exists (VStr "a"). split; [apply list_elem_of_here|].
    intros u Hu. vm_compute in Hu. injection Hu as <-. vm_compute. reflexivity.
Defined.

(** C2 as the specification states it fails on the example of the class
    docstring: after [fit(['a','b','c'])] the rows of
    [transform(['a','v','d'])] are three wide, not four, and the rows of
    ['v'] and ['d'] are all zeros. *)
Lemma onehot_claim_counterexample :
  ~ onehot_claim_as_stated OneHotEncoder.HU_error
      (StrCol ["a"; "b"; "c"]) (StrCol ["a"; "v"; "d"]).
Proof.
  intros H.
  edestruct (H 4) as (j & _ & HF);
    [vm_compute; reflexivity | vm_compute; reflexivity |].
  apply Forall2_cons_1 in HF as [[Hlen _] _].
  vm_compute in Hlen. discriminate.
Qed.

(** ** [countencoder] *)

Lemma occurrences_cons v x l :
  occurrences v (x :: l)
  = if bool_decide (x = v) then S (occurrences v l) else occurrences v l.
Proof.
  unfold occurrences. rewrite filter_cons.
  case_bool_decide; by destruct (decide (x = v)).
Qed.

Lemma occurrences_pos v l : v ∈ l <-> 0 < occurrences v l.
Proof.
  induction l as [|x l IH].
  - split; [by intros ?%not_elem_of_nil|]. unfold occurrences. simpl. lia.
  - rewrite occurrences_cons, elem_of_cons. case_bool_decide as E.
    + split; [lia|]. intros _. by left.
    + rewrite IH. split; [|tauto]. intros [->|]; [done|tauto].
Qed.

(** [Counter] counts: on top of a dictionary [m], each key gains its
    number of occurrences. *)
Lemma Counter_foldl l (m : gmap value nat) v :
  foldl (fun m x => <[x := S (default 0 (m !! x))]> m) m l !! v
  = if bool_decide (occurrences v l = 0) then m !! v
    else Some (default 0 (m !! v) + occurrences v l).
Proof.
  revert m. induction l as [|x l IH]; intros m.
  - reflexivity.
  - cbn [foldl]. rewrite IH, occurrences_cons.
    destruct (decide (x = v)) as [->|Hne].
    + rewrite lookup_insert_eq. cbn [from_option id].
      rewrite (bool_decide_eq_true_2 (v = v)) by done.
      destruct (decide (occurrences v l = 0)) as [E|E].
      * rewrite (bool_decide_eq_true_2 _ E), E.
        rewrite bool_decide_eq_false_2 by lia. f_equal.
        destruct (m !! v); simpl; lia.
      * rewrite (bool_decide_eq_false_2 _ E).
        rewrite bool_decide_eq_false_2 by lia. f_equal.
        destruct (m !! v); simpl; lia.
    + rewrite (bool_decide_eq_false_2 (x = v)) by done.
      by rewrite lookup_insert_ne.
Qed.

Lemma Counter_lookup l v :
  CountEncoder.Counter l !! v
  = if bool_decide (v ∈ l) then Some (occurrences v l) else None.
Proof.
  unfold CountEncoder.Counter. rewrite Counter_foldl, lookup_empty.
  pose proof (occurrences_pos v l) as Hp.
  destruct (decide (v ∈ l)) as [Hin|Hin].
  - rewrite (bool_decide_eq_true_2 _ Hin).
    rewrite bool_decide_eq_false_2; [reflexivity|]. apply Hp in Hin. lia.
  - rewrite (bool_decide_eq_false_2 _ Hin).
    rewrite bool_decide_eq_true_2; [reflexivity|].
    destruct (occurrences v l); [reflexivity|]. exfalso. apply Hin, Hp. lia.
Qed.




(** ** [targetencoder] *)

Section TargetEncoderFacts.
Context {num rng : Type} `{!Numeric num} `{!RandomState num rng}.


Lemma enumerate_keys {A} (f : nat -> nat) (l : list A) :
  (imap (fun i x => (f i, x)) l).*2 = l.
Proof.
  revert f. induction l as [|x l IH]; intros f; [reflexivity|].
  rewrite imap_cons, fmap_cons. simpl. f_equal. apply (IH (f ∘ S)).
Qed.

Lemma enumerate_snd {A} (l : list A) : (TargetEncoder.enumerate l).*2 = l.
Proof. exact (enumerate_keys (fun i => i) l). Qed.

Lemma elem_of_enumerate {A} (l : list A) i x :
  (i, x) ∈ TargetEncoder.enumerate l <-> l !! i = Some x.
Proof.
  unfold TargetEncoder.enumerate. rewrite elem_of_lookup_imap. split.
  - by intros (j & y & [= -> ->] & Hl).
  - intros Hl. by exists i, x.
Qed.


(** The loop only fails with the [IndexError] of a mask of the wrong
    length or of a missing draw. *)
Lemma fit_loop_result s bp X (y b : list num) items d d' r :
  TargetEncoder.fit_loop s bp X y b items d = (d', r) ->
  r = Ok tt \/ r = Raise IndexError.
Proof.
  revert d. induction items as [|[i key] items IH]; intros d; simpl.
  - intros [= _ <-]. by left.
  - unfold mask_select. case_bool_decide; [|intros [= _ <-]; by right].
    destruct (b !! i); [apply IH|intros [= _ <-]; by right].
Qed.

(** What the loop has stored when it ends normally. *)
Lemma fit_loop_inv s bp X (y b : list num) items d d' :
  NoDup items.*2 ->
  TargetEncoder.fit_loop s bp X y b items d = (d', Ok tt) ->
  (forall i k, (i, k) ∈ items ->
     exists bi, b !! i = Some bi /\
       d' !! k = Some (num_add
                         (TargetEncoder.smoothed_mean s bp (select y (eq_mask X k)))
                         bi)) /\
  (forall k, k ∉ items.*2 -> d' !! k = d !! k).
Proof.
  revert d. induction items as [|[i key] items IH]; intros d Hnd; simpl.
  - intros [= <-]. split; [|done]. by intros i k ?%not_elem_of_nil.
  - rewrite fmap_cons in Hnd. apply NoDup_cons in Hnd as [Hkey Hnd].
    unfold mask_select. case_bool_decide; [|discriminate].
    destruct (b !! i) as [bi|] eqn:Hb; [|discriminate].
    intros Hloop. destruct (IH _ Hnd Hloop) as [Hin Hout]. split.
    + intros i' k [[= -> ->]|Hk]%elem_of_cons.
      * exists bi. split; [done|].
        rewrite (Hout key Hkey). apply lookup_insert_eq.
      * by apply Hin.
    + intros k [Hne Hk]%not_elem_of_cons. rewrite (Hout k Hk).
      by apply lookup_insert_ne.
Qed.


End TargetEncoderFacts.

Section TargetEncoderClaims.
Context {num rng : Type} `{!Numeric num} `{!RandomState num rng}.

(** What a successful [fit] has done. *)
Lemma targetencoder_fit_inv (g : rng) (st : TargetEncoder.state num) X y g' st' :
  TargetEncoder.fit g st X (Some y) = (g', st', Ok tt) ->
  exists g0 d,
    rng_seed (TargetEncoder.random_seed st) = Some g0 /\
    rng_scale_ok (TargetEncoder.random_noise st) = true /\
    TargetEncoder.fit_loop (TargetEncoder.smoothing st) (num_mean y) X y
      (normal_draws g0 num_zero (TargetEncoder.random_noise st)
         (length (np_unique X))).1
      (TargetEncoder.enumerate (np_unique X)) ∅ = (d, Ok tt) /\
    g' = (normal_draws g0 num_zero (TargetEncoder.random_noise st)
            (length (np_unique X))).2 /\
    st' = {| TargetEncoder.random_noise := TargetEncoder.random_noise st;
             TargetEncoder.smoothing := TargetEncoder.smoothing st;
             TargetEncoder.random_seed := TargetEncoder.random_seed st;
             TargetEncoder.classes_ := Some (np_unique X);
             TargetEncoder.bias :=
               Some (normal_draws g0 num_zero (TargetEncoder.random_noise st)
                       (length (np_unique X))).1;
             TargetEncoder.dmap := Some d;
             TargetEncoder.base_p := Some (num_mean y) |}.
Proof.
  unfold TargetEncoder.fit, np_random_normal. simpl.
  destruct (rng_seed (TargetEncoder.random_seed st)) as [g0|]; [|discriminate].
  destruct (rng_scale_ok (TargetEncoder.random_noise st)); [|discriminate].
  destruct (normal_draws g0 num_zero (TargetEncoder.random_noise st)
              (length (np_unique X))) as [b g1] eqn:Hd.
  simpl.
  destruct (TargetEncoder.fit_loop _ _ _ _ _ _ _) as [d r] eqn:Hloop.
  intros [= <- <- ->]. exists g0, d. rewrite Hd. by repeat split.
Qed.


Lemma targetencoder_dmap_lookup s bp X (y b : list num) d :
  TargetEncoder.fit_loop s bp X y b (TargetEncoder.enumerate (np_unique X)) ∅
    = (d, Ok tt) ->
  (forall i k, np_unique X !! i = Some k ->
     exists bi, b !! i = Some bi /\
       d !! k = Some (num_add
                        (TargetEncoder.smoothed_mean s bp (select y (eq_mask X k)))
                        bi)) /\
  (forall k, k ∉ values X -> d !! k = None).
Proof.
  intros Hloop. apply fit_loop_inv in Hloop as [Hin Hout].
  - split.
    + intros i k Hk. apply Hin. by apply elem_of_enumerate.
    + intros k Hk. rewrite Hout; [apply lookup_empty|].
      by rewrite enumerate_snd, elem_of_np_unique.
  - rewrite enumerate_snd. apply np_unique_NoDup.
Qed.


(** C6.  [fit] raises its own exception exactly when the target is
    missing: without a target it raises at once and leaves the object
    (and the generator) as they were, so a new object still has no
    encoding map; with a target, whatever else happens, that exception
    is not raised. *)
Theorem targetencoder_fit_requires_target (g : rng)
  (st : TargetEncoder.state num) (X : column) :
  TargetEncoder.fit g st X None
    = (g, st, Raise (Exception "encoder need valid y label.")) /\
  (forall random_noise0 smoothing0 random_seed0,
     TargetEncoder.dmap
       (TargetEncoder.fit g
          (TargetEncoder.init random_noise0 smoothing0 random_seed0) X None).1.2
     = None) /\
  (forall y, (TargetEncoder.fit g st X (Some y)).2
             <> Raise (Exception "encoder need valid y label.")) /\
  (forall y, (TargetEncoder.fit g st X y).2
             = Raise (Exception "encoder need valid y label.") <-> y = None).
Proof.
  assert (Hsome : forall y, (TargetEncoder.fit g st X (Some y)).2
                    <> Raise (Exception "encoder need valid y label.")).
  { intros y. unfold TargetEncoder.fit, np_random_normal. simpl.
    destruct (rng_seed (TargetEncoder.random_seed st)) as [g0|]; [|discriminate].
    destruct (rng_scale_ok (TargetEncoder.random_noise st)); [|discriminate].
    destruct (normal_draws _ _ _ _) as [b g1]. simpl.
    destruct (TargetEncoder.fit_loop _ _ _ _ _ _ _) as [d r] eqn:Hloop.
    simpl. apply fit_loop_result in Hloop as [->| ->]; discriminate. }
  split; [reflexivity|]. split; [reflexivity|]. split; [exact Hsome|].
  intros [y|]; split; try done.
  intros Hy. by apply Hsome in Hy.
Qed.

(** C7.  After a successful [fit(X, y)], [transform] returns, for each
    value, the encoding stored for it when the value was seen by [fit]
    (the values with a stored encoding are exactly those) and the mean of
    [y], as [fit] stored it in [base_p], when it was not. *)
Theorem targetencoder_transform_lookup (g : rng) (st : TargetEncoder.state num)
  (X : column) (y : list num) g' st' (gT : rng) (X' : column) :
  TargetEncoder.fit g st X (Some y) = (g', st', Ok tt) ->
  exists d,
    TargetEncoder.dmap st' = Some d /\
    TargetEncoder.base_p st' = Some (num_mean y) /\
    (forall v, v ∈ values X <-> is_Some (d !! v)) /\
    TargetEncoder.transform gT st' X'
    = (gT, st',
       Ok ((fun v => match d !! v with
                     | Some p => p
                     | None => num_mean y
                     end) <$> values X')).
Proof.
  intros Hfit.
  apply targetencoder_fit_inv in Hfit
    as (g0 & d & _ & _ & Hloop & _ & ->).
  apply targetencoder_dmap_lookup in Hloop as [Hin Hout].
  assert (Hdom : forall v, v ∈ values X <-> is_Some (d !! v)).
  { intros v. split.
    - intros Hv%elem_of_np_unique. apply list_elem_of_lookup in Hv as [i Hi].
      destruct (Hin i v Hi) as (bi & _ & ->). by eexists.
    - intros Hv. destruct (decide (v ∈ values X)) as [|Hn]; [done|].
      rewrite (Hout v Hn) in Hv. by destruct Hv. }
  exists d. split; [reflexivity|]. split; [reflexivity|]. split; [exact Hdom|].
  unfold TargetEncoder.transform. simpl. f_equal.
  induction (values X') as [|v vs IH]; [reflexivity|].
  cbn [TargetEncoder.lookup_all]. rewrite IH. rewrite fmap_cons.
  destruct (d !! v) as [p|] eqn:Hv.
  - rewrite bool_decide_eq_true_2 by (apply elem_of_dom; by eexists).
    reflexivity.
  - rewrite bool_decide_eq_false_2; [reflexivity|].
    rewrite elem_of_dom, Hv. by intros [? ?].
Qed.

End TargetEncoderClaims.


Lemma targetencoder_transform_lookup_witness :
  let X := StrCol ["a"; "b"; "c"; "b"; "c"; "c"] in
  let y := [1; 0; 1; 1; 0; 1]%Q in
  let st := TargetEncoder.init (5 # 100)%Q (1 # 10)%Q 10%Z in
  let res := TargetEncoder.fit 0%Z st X (Some y) in
  res.2 = Ok tt /\
  exists d,
    TargetEncoder.dmap res.1.2 = Some d /\
    TargetEncoder.transform 7%Z res.1.2 (StrCol ["a"; "z"])
    = (7%Z, res.1.2,
       Ok [default (4 # 6)%Q (d !! VStr "a"); default (4 # 6)%Q (d !! VStr "z")]).
Proof.
  intros X y st res.
  assert (Hfit : TargetEncoder.fit 0%Z st X (Some y) = (res.1.1, res.1.2, Ok tt))
    by (vm_compute; reflexivity).
  split; [vm_compute; reflexivity|].
  destruct (targetencoder_transform_lookup (num := Q) (rng := Z)
              0%Z st X y res.1.1 res.1.2 7%Z (StrCol ["a"; "z"]) Hfit)
    as (d & Hd & _ & _ & Ht).
  exists d. split; [exact Hd|]. exact Ht.
Defined.

(** ** All four encoders *)

Lemma labelencoder_transform_state s X : (LabelEncoder.transform s X).1 = s.
Proof. unfold LabelEncoder.transform. by destruct (LabelEncoder.encoder s). Qed.

Lemma onehotencoder_transform_state s X : (OneHotEncoder.transform s X).1 = s.
Proof.
  unfold OneHotEncoder.transform. destruct s as [hu [le0|] enc]; simpl; [|done].
  pose proof (labelencoder_transform_state le0 X) as Hle.
  destruct (LabelEncoder.transform le0 X) as [le1 r]. simpl in Hle. subst le1.
  destruct r as [codes|e]; [|done]. by destruct enc.
Qed.

Lemma countencoder_transform_state s X : (CountEncoder.transform s X).1 = s.
Proof.
  unfold CountEncoder.transform.
  by destruct (CountEncoder.dmap s), (values X).
Qed.

Section EncodersFacts.
Context {num rng : Type} `{!Numeric num} `{!RandomState num rng}.

(** [targetencoder.fit] reads nothing of the generator state it finds:
    it reseeds before it draws. *)
Lemma targetencoder_fit_reseeds (gA gB : rng) (st : TargetEncoder.state num) X y :
  (TargetEncoder.fit gA st X y).1.2 = (TargetEncoder.fit gB st X y).1.2 /\
  (TargetEncoder.fit gA st X y).2 = (TargetEncoder.fit gB st X y).2.
Proof.
  unfold TargetEncoder.fit. destruct y as [y|]; [|done].
  destruct (rng_seed _) as [g0|]; [|done].
  destruct (np_random_normal _ _ _ _) as [[b g1]|e]; [|done].
  by destruct (TargetEncoder.fit_loop _ _ _ _ _ _ _).
Qed.

Lemma encoders_fit_reseeds fuel (gA gB : rng) (e : Encoders.instance num) X y :
  match Encoders.fit fuel gA e X y, Encoders.fit fuel gB e X y with
  | Some (_, ea, ra), Some (_, eb, rb) => ea = eb /\ ra = rb
  | None, None => True
  | _, _ => False
  end.
Proof.
  destruct e as [s|s|s|s]; simpl.
  - by destruct (LabelEncoder.fit fuel s X) as [[s' r]|].
  - by destruct (OneHotEncoder.fit fuel s X) as [[s' r]|].
  - by destruct (CountEncoder.fit s X) as [s' r].
  - destruct (targetencoder_fit_reseeds gA gB s X y) as [H1 H2].
    destruct (TargetEncoder.fit gA s X y) as [[ga sa] ra].
    destruct (TargetEncoder.fit gB s X y) as [[gb sb] rb].
    simpl in *. by subst.
Qed.

Lemma encoders_transform_frame (g : rng) (e : Encoders.instance num) X :
  (Encoders.transform g e X).1 = (g, e).
Proof.
  destruct e as [s|s|s|s]; simpl.
  - pose proof (labelencoder_transform_state s X) as Hs.
    destruct (LabelEncoder.transform s X). simpl in *. by subst.
  - pose proof (onehotencoder_transform_state s X) as Hs.
    destruct (OneHotEncoder.transform s X). simpl in *. by subst.
  - pose proof (countencoder_transform_state s X) as Hs.
    destruct (CountEncoder.transform s X). simpl in *. by subst.
  - reflexivity.
Qed.

Lemma encoders_transform_rng (gA gB : rng) (e : Encoders.instance num) X :
  (Encoders.transform gA e X).2 = (Encoders.transform gB e X).2.
Proof.
  destruct e as [s|s|s|s]; simpl; [| | |reflexivity].
  - by destruct (LabelEncoder.transform s X).
  - by destruct (OneHotEncoder.transform s X).
  - by destruct (CountEncoder.transform s X).
Qed.

(** C8.  For each of the four encoders and every input, [transform]
    returns the object (and the shared generator) exactly as it found
    them, whatever state that is, the fitted one in particular; and a
    second [transform] of the same input, run on what the first one
    left, returns the same result. *)
Theorem transform_is_read_only (g : rng) (e : Encoders.instance num)
  (X : column) :
  (Encoders.transform g e X).1 = (g, e) /\
  Encoders.transform (Encoders.transform g e X).1.1
    (Encoders.transform g e X).1.2 X
  = Encoders.transform g e X.
Proof.
  split; [apply encoders_transform_frame|].
  by rewrite encoders_transform_frame.
Qed.

(** C9.  Let [fit] run on one instance [e2] and leave the generator in
    the state [g2].  Then [fit] on another instance [e1] does the same
    whether it runs instead of that call (from [g]) or after it (from
    [g2]): both runs are still in a loop, or both end with the same
    object and the same outcome, and [transform] then returns the same
    result.  The only state the two instances share is the generator,
    and [targetencoder.fit] seeds it before drawing. *)
Theorem fit_instances_do_not_interact fuel (g : rng)
  (e1 e2 : Encoders.instance num) X1 y1 X2 y2 X' :
  match Encoders.fit fuel g e2 X2 y2 with
  | None => True
  | Some (g2, _, _) =>
      match Encoders.fit fuel g e1 X1 y1, Encoders.fit fuel g2 e1 X1 y1 with
      | Some (ga, ea, ra), Some (gb, eb, rb) =>
          ea = eb /\ ra = rb /\
          (Encoders.transform ga ea X').2 = (Encoders.transform gb eb X').2
      | None, None => True
      | _, _ => False
      end
  end.
Proof.
  destruct (Encoders.fit fuel g e2 X2 y2) as [[[g2 e2'] r2]|]; [|done].
  pose proof (encoders_fit_reseeds fuel g g2 e1 X1 y1) as H.
  destruct (Encoders.fit fuel g e1 X1 y1) as [[[ga ea] ra]|],
           (Encoders.fit fuel g2 e1 X1 y1) as [[[gb eb] rb]|]; try done.
  destruct H as [-> ->]. split; [done|]. split; [done|].
  apply encoders_transform_rng.
Qed.

End EncodersFacts.

(** The generator is shared and [fit] does change it: a target encoder
    fitted from the state [0] leaves it elsewhere. *)
Example targetencoder_fit_moves_generator :
  (TargetEncoder.fit 0%Z (TargetEncoder.init (1 # 100)%Q (2 # 10)%Q 3%Z)
     (StrCol ["x"; "y"]) (Some [1; 0]%Q)).1.1 = 465823161%Z.
Proof. vm_compute. reflexivity. Qed.

(** ** [xgb_model_evaluation] *)

Section ModelEvaluationFacts.
Context {row booster score : Type}.
Context (train_test_split : list row -> list Z -> Q -> Z
                            -> list row * list row * list Z * list Z)
        (skf_split : Z -> Z -> list row -> list Z -> list (list nat * list nat))
        (xgb_train : ModelEvaluation.train_call (row := row) -> booster)
        (predict : booster -> ModelEvaluation.DMatrix (row := row) -> list score)
        (roc_auc_score : option (list Z) -> list score -> score).

(** C10.  With [n_folds=0] the function records no fold, calls
    [xgb.train] exactly once, on the whole training partition with its
    labels, and returns that model with an empty list of fold records,
    the test table (the test labels beside the model's predictions on
    the test partition) and the train table (the training labels beside
    its predictions on the training partition).  The partitions are
    those of [train_test_split] when neither [test] nor [test_y] is
    given, and [df], [target], [test], [test_y] themselves otherwise. *)
Theorem n_folds_zero_skips_cv (w : ModelEvaluation.world (row := row))
  (df : list row) (target : list Z) (test : option (list row))
  (test_y : option (list Z)) (params : ModelEvaluation.params_arg)
  (test_size : Q) (random_state early_stopping_rounds num_rounds : Z)
  (cv_verbose_eval verbose_eval : bool)
  (pn_ratio : option ModelEvaluation.ratio) :
  let parts :=
    match test, test_y with
    | None, None =>
        let '(tr, te, tr_y, te_y) :=
          train_test_split df target test_size random_state in
        (tr, Some te, tr_y, Some te_y)
    | _, _ => (df, test, target, test_y)
    end in
  let train0 := parts.1.1.1 in
  let test0 := parts.1.1.2 in
  let train_y := parts.1.2 in
  let test_y0 := parts.2 in
  let out :=
    ModelEvaluation.xgb_model_evaluation train_test_split skf_split xgb_train
      predict roc_auc_score w df target test test_y params 0%Z test_size
      random_state early_stopping_rounds num_rounds cv_verbose_eval
      verbose_eval pn_ratio in
  exists call,
    ModelEvaluation.trained out.1 = ModelEvaluation.trained w ++ [call] /\
    ModelEvaluation.tc_dtrain call
    = {| ModelEvaluation.dm_data := Some train0;
         ModelEvaluation.dm_label := Some train_y |} /\
    out.2
    = Ok (xgb_train call, [],
          {| ModelEvaluation.y_true := test_y0;
             ModelEvaluation.y_pred :=
               predict (xgb_train call)
                 {| ModelEvaluation.dm_data := test0;
                    ModelEvaluation.dm_label := None |} |},
          {| ModelEvaluation.y_true := Some train_y;
             ModelEvaluation.y_pred :=
               predict (xgb_train call)
                 {| ModelEvaluation.dm_data := Some train0;
                    ModelEvaluation.dm_label := None |} |}).
Proof.
  intros parts train0 test0 train_y test_y0 out.
  subst out train0 test0 train_y test_y0 parts.
  unfold ModelEvaluation.xgb_model_evaluation.
  rewrite (bool_decide_eq_false_2 (0%Z <> 0%Z)) by (intros H; by apply H).
  destruct params as [s|d]; [destruct (String.eqb s "gbtree");
    [|destruct (String.eqb s "gblinear")]|];
  (destruct test as [t|], test_y as [ty|];
   try destruct (train_test_split df target test_size random_state)
         as [[[tr te] tr_y] te_y];
   cbn; eexists; repeat split; reflexivity).
Qed.

End ModelEvaluationFacts.

(** * Further properties of the code *)

(** ** [labelencoder] *)

Lemma values_singleton_col v : values (singleton_col v) = [v].
Proof. by destruct v. Qed.

(** In a fitted object, the code of [v] is the position in [classes_] of
    [v] itself when it is there and of the sentinel otherwise. *)
Lemma label_code_lookup u cl v :
  StronglySorted value_lt cl -> u ∈ cl ->
  cl !! label_code
          {| LabelEncoder.unknown := Some u;
             LabelEncoder.encoder := Some {| LabelEncoder.classes_ := cl |} |} v
  = Some (if bool_decide (v ∈ cl) then v else u).
Proof.
  intros Hs Hu. unfold label_code.
  destruct (labelencoder_transform_spec u cl (singleton_col v) Hs Hu)
    as (codes & Et & Hc).
  cbv zeta in Et. rewrite Et. simpl. rewrite values_singleton_col in Hc.
  apply Forall2_cons_inv_l in Hc as (c & codes' & Hc & _ & ->). exact Hc.
Qed.









(** X4.  After [fit], the code shared by the values not seen by [fit]
    is [0] exactly when the sentinel sorts before every fit-time
    category. *)
Theorem labelencoder_unknown_code_zero fuel st X st' r v :
  LabelEncoder.fit fuel st X = Some (st', r) ->
  v ∉ values X ->
  (label_code st' v = 0 <->
   forall u k, LabelEncoder.unknown st' = Some u -> k ∈ values X -> value_lt u k).
Proof.
  intros Hfit Hv.
  apply labelencoder_fit_inv in Hfit as (_ & u & cl & -> & Hu & Hs & Hin).
  assert (Hucl : u ∈ cl) by (apply Hin; by left).
  set (st' := {| LabelEncoder.unknown := Some u;
                 LabelEncoder.encoder := Some {| LabelEncoder.classes_ := cl |} |}).
  assert (Hcode : cl !! label_code st' v = Some u).
  { unfold st'. rewrite label_code_lookup by done.
    case_bool_decide as Hcl; [|done].
    apply Hin in Hcl as [->|Hcl]; [done|by destruct Hv]. }
  split.
  - intros E u' k [= <-] Hk. rewrite E in Hcode.
    assert (Hkcl : k ∈ cl) by (apply Hin; by right).
    apply list_elem_of_lookup in Hkcl as [j Hj].
    destruct j as [|j]; [rewrite Hcode in Hj; injection Hj as ->; by destruct Hu|].
    apply (sorted_lookup_lt value_lt cl 0 (S j) u k Hs); [lia|done|done].
  - intros Hmin. destruct (label_code st' v) as [|n] eqn:E; [reflexivity|].
    exfalso. destruct (cl !! 0) as [k0|] eqn:H0.
    + assert (Hk0 : value_lt k0 u).
      { apply (sorted_lookup_lt value_lt cl 0 (S n) k0 u Hs); [lia|done|done]. }
      assert (Hk0in : k0 = u \/ k0 ∈ values X).
      { apply Hin. by eapply list_elem_of_lookup_2. }
      destruct Hk0in as [->|Hk0in]; [by apply (value_lt_irrefl u)|].
      apply (value_lt_irrefl u). eapply value_lt_trans; [|exact Hk0].
      by apply (Hmin u k0).
    + apply lookup_lt_Some in Hcode. apply lookup_ge_None in H0. lia.
Qed.

Lemma labelencoder_unknown_code_zero_witness :
  exists st',
    LabelEncoder.fit 4 LabelEncoder.new (StrCol ["b"; "a"; "c"])
      = Some (st', Ok tt) /\
    (label_code st' (VStr "zz") = 0 <->
     forall u k, LabelEncoder.unknown st' = Some u ->
                 k ∈ values (StrCol ["b"; "a"; "c"]) -> value_lt u k).
Proof.
  eexists. split; [vm_compute; reflexivity|].
  refine (labelencoder_unknown_code_zero 4 LabelEncoder.new
            (StrCol ["b"; "a"; "c"]) _ (Ok tt) (VStr "zz") _ _).
  - vm_compute. reflexivity.
  - apply (proj1 (py_in_false _ _)). vm_compute. reflexivity.
Defined.

(** Which of the two candidates becomes the sentinel: the number on a
    non-empty column of numbers, the string otherwise. *)
Lemma labelencoder_fit_sentinel fuel st X st' r :
  LabelEncoder.fit fuel st X = Some (st', r) ->
  exists t1 t2,
    LabelEncoder.probe_t1 fuel (np_unique X) "<unknown>" = Some t1 /\
    LabelEncoder.probe_t2 fuel (np_unique X) (-999) = Some t2 /\
    LabelEncoder.unknown st'
    = Some (match X with
            | NumCol (_ :: _) => VNum t2
            | _ => VStr t1
            end).
Proof.
  unfold LabelEncoder.fit.
  destruct (LabelEncoder.probe_t1 fuel (np_unique X) "<unknown>") as [t1|] eqn:E1;
    [|discriminate].
  destruct (LabelEncoder.probe_t2 fuel (np_unique X) (-999)) as [t2|] eqn:E2;
    [|discriminate].
  intros Hfit. exists t1, t2. split; [reflexivity|]. split; [reflexivity|].
  pose proof (probe_t1_absent _ _ _ _ E1) as H1.
  pose proof (probe_t2_absent _ _ _ _ E2) as H2.
  pose proof (np_unique_sorted X) as Hs.
  simpl LabelEncoder.classes_ in Hfit.
  destruct X as [l|l].
  - destruct (insort_left_spec (np_unique (StrCol l)) (VStr t1) Hs H1)
      as (a' & Ea & _).
    { apply Forall_forall. simpl.
      intros v (s & -> & _)%list_elem_of_fmap. by eexists. }
    rewrite Ea in Hfit. by injection Hfit as <- <-.
  - destruct l as [|z l].
    + simpl in Hfit. by injection Hfit as <- <-.
    + destruct (np_unique (NumCol (z :: l))) as [|v0 a] eqn:Eu.
      { exfalso. apply (not_elem_of_nil (VNum z)). rewrite <- Eu.
        apply elem_of_np_unique. simpl. left. }
      assert (exists z0, v0 = VNum z0) as [z0 ->].
      { simpl in Eu. destruct (insert_uniq Z.compare z (unique Z.compare l));
          simplify_eq/=. by eexists. }
      rewrite insort_left_mixed in Hfit. rewrite <- Eu in *.
      destruct (insort_left_spec (np_unique (NumCol (z :: l))) (VNum t2) Hs H2)
        as (a' & Ea & _).
      { apply Forall_forall. simpl.
        intros v (n & -> & _)%list_elem_of_fmap. by eexists. }
      rewrite Ea in Hfit. by injection Hfit as <- <-.
Qed.

(** X5.  On a column of strings [fit] returns, successfully, after at
    most as many tests of the string candidate as the column is long
    plus one.  The sentinel is a string that is not in the column,
    ['<unknown>'] itself when that is not in the column, and [classes_]
    is the sorted list of the sentinel and the distinct values. *)
Theorem labelencoder_fit_strings fuel st l :
  length l < fuel ->
  exists t cl,
    LabelEncoder.fit fuel st (StrCol l)
    = Some ({| LabelEncoder.unknown := Some (VStr t);
               LabelEncoder.encoder :=
                 Some {| LabelEncoder.classes_ := cl |} |}, Ok tt) /\
    (t ∉ l) /\
    ("<unknown>" ∉ l -> t = "<unknown>") /\
    StronglySorted value_lt cl /\
    (forall v, v ∈ cl <-> v = VStr t \/ v ∈ values (StrCol l)).
Proof.
  intros Hfuel.
  destruct (labelencoder_fit_str fuel st l Hfuel) as [st' Hfit].
  pose proof Hfit as Hinv.
  apply labelencoder_fit_inv in Hinv as (_ & u & cl & -> & Hu & Hs & Hin).
  pose proof Hfit as Hsen.
  apply labelencoder_fit_sentinel in Hsen as (t1 & t2 & E1 & _ & [= ->]).
  exists t1, cl. split; [exact Hfit|]. split; [|split; [|by split]].
  - intros Ht. apply Hu. simpl. apply list_elem_of_fmap. by exists t1.
  - intros Hnot. destruct fuel as [|fuel]; [lia|]. simpl in E1.
    assert (Hn : py_in (VStr "<unknown>") (VStr <$> unique String.compare l) = false).
    { apply py_in_false. intros Hx.
      apply list_elem_of_fmap in Hx as (s & Heq & Hs'). injection Heq as <-.
      apply Hnot. exact (proj1 (elem_of_unique String.compare _ _) Hs'). }
    rewrite Hn in E1. by injection E1 as <-.
Qed.

Lemma labelencoder_fit_strings_witness :
  exists t cl,
    LabelEncoder.fit 3 LabelEncoder.new (StrCol ["<unknown>"; "b"])
    = Some ({| LabelEncoder.unknown := Some (VStr t);
               LabelEncoder.encoder :=
                 Some {| LabelEncoder.classes_ := cl |} |}, Ok tt) /\
    (t ∉ ["<unknown>"; "b"]).
Proof.
  destruct (labelencoder_fit_strings 3 LabelEncoder.new ["<unknown>"; "b"])
    as (t & cl & Hfit & Ht & _); [simpl; lia|].
  by exists t, cl.
Defined.



(** ** [onehotencoder] *)

(** X7.  [fit] on an empty column raises [ValueError]: the label encoder
    inside is fitted (with sentinel ['<unknown>'] as its only class) and
    stored in [le], but the one-hot step refuses the empty array of codes
    and [encoder] is left as it was, so a new object then raises
    [AttributeError] on [transform]. *)
Theorem onehot_fit_empty fuel st X :
  values X = [] ->
  OneHotEncoder.fit (S fuel) st X
  = Some ({| OneHotEncoder.handle_unknown := OneHotEncoder.handle_unknown st;
             OneHotEncoder.le :=
               Some {| LabelEncoder.unknown := Some (VStr "<unknown>");
                       LabelEncoder.encoder :=
                         Some {| LabelEncoder.classes_ := [VStr "<unknown>"] |} |};
             OneHotEncoder.encoder := OneHotEncoder.encoder st |},
          Raise ValueError) /\
  (OneHotEncoder.encoder st = None ->
   forall st' r X',
     OneHotEncoder.fit (S fuel) st X = Some (st', r) ->
     (OneHotEncoder.transform st' X').2 = Raise AttributeError).
Proof.
  intros HX.
  assert (Hfit : OneHotEncoder.fit (S fuel) st X
    = Some ({| OneHotEncoder.handle_unknown := OneHotEncoder.handle_unknown st;
               OneHotEncoder.le :=
                 Some {| LabelEncoder.unknown := Some (VStr "<unknown>");
                         LabelEncoder.encoder :=
                           Some {| LabelEncoder.classes_ := [VStr "<unknown>"] |} |};
               OneHotEncoder.encoder := OneHotEncoder.encoder st |},
            Raise ValueError)).
  { destruct X as [[|s l]|[|z l]]; try discriminate; reflexivity. }
  split; [exact Hfit|].
  intros Hnone st' r X'. rewrite Hfit. intros [= <- <-].
  unfold OneHotEncoder.transform.
  cbn [OneHotEncoder.le OneHotEncoder.encoder OneHotEncoder.handle_unknown].
  rewrite Hnone.
  destruct (LabelEncoder.transform _ X') as [le1 [codes|e]] eqn:Et.
  - reflexivity.
  - exfalso.
    destruct (labelencoder_transform_spec (VStr "<unknown>") [VStr "<unknown>"] X')
      as (codes & Et' & _); [repeat constructor|apply list_elem_of_here|].
    cbv zeta in Et'. rewrite Et' in Et. discriminate.
Qed.

Lemma onehot_fit_empty_witness :
  exists st',
    OneHotEncoder.fit 1 (OneHotEncoder.init OneHotEncoder.HU_error) (NumCol [])
    = Some (st', Raise ValueError).
Proof.
  eexists.
  exact (proj1 (onehot_fit_empty 0 (OneHotEncoder.init OneHotEncoder.HU_error)
                  (NumCol []) eq_refl)).
Defined.

(** X8.  With [handle_unknown='error'] (the constructor default),
    [transform] raises [ValueError] on every column that holds a value
    not seen by [fit] when the sentinel sorts after all fit-time
    categories: the sentinel's code is then beyond the codes the one-hot
    step was fitted on. *)
Theorem onehot_transform_unseen_raises fuel st X st' X' v :
  OneHotEncoder.fit fuel st X = Some (st', Ok tt) ->
  OneHotEncoder.handle_unknown st = OneHotEncoder.HU_error ->
  v ∈ values X' -> v ∉ values X ->
  (forall u w, sentinel st' = Some u -> w ∈ values X -> value_lt w u) ->
  OneHotEncoder.transform st' X' = (st', Raise ValueError).
Proof.
  intros Hfit Hhu Hv Hunseen Hlast.
  apply onehot_fit_inv in Hfit
    as (u & cl & cX & -> & Hu & Hs & Hin & HX & HcX).
  pose proof (value_lt_sorted_NoDup cl Hs) as Hnd.
  destruct (labelencoder_transform_spec u cl X' Hs) as (cX' & Et & HX').
  { apply Hin. by left. }
  unfold OneHotEncoder.transform.
  cbn [OneHotEncoder.le OneHotEncoder.encoder OneHotEncoder.handle_unknown].
  cbv zeta in Et. rewrite Et.
  cbn [OneHotEncoder.le OneHotEncoder.encoder OneHotEncoder.handle_unknown].
  unfold OneHotEncoder.sk_transform.
  cbn [OneHotEncoder.n_values_ OneHotEncoder.active_features_].
  apply list_elem_of_lookup in Hv as [i Hi].
  destruct (Forall2_lookup_l _ _ _ _ _ HX' Hi) as (c & Hc & Hvc).
  simpl in Hvc.
  assert (Hcu : cl !! c = Some u).
  { case_bool_decide as Hcl; [|done].
    apply Hin in Hcl as [->|Hcl]; [done|by destruct Hunseen]. }
  assert (Hmax : max_list cX < c).
  { pose proof (max_list_elem_of cX HcX) as Hm.
    apply list_elem_of_lookup in Hm as [j Hj].
    destruct (Forall2_lookup_r _ _ _ _ _ HX Hj) as (w & Hw & Hwm).
    apply (sorted_index_lt cl _ _ w u Hs Hwm Hcu).
    apply (Hlast u w); [reflexivity|]. by eapply list_elem_of_lookup_2. }
  destruct cX' as [|c0 cX']; [by rewrite lookup_nil in Hc|].
  destruct (forallb _ (c0 :: cX')) eqn:Hall; [|by rewrite Hhu].
  exfalso. apply Is_true_true, forallb_True in Hall.
  rewrite Forall_forall in Hall.
  specialize (Hall c (list_elem_of_lookup_2 _ _ _ Hc)).
  apply Is_true_true, Nat.ltb_lt in Hall. lia.
Qed.

Lemma onehot_transform_unseen_raises_witness :
  exists st',
    OneHotEncoder.fit 3 (OneHotEncoder.init OneHotEncoder.HU_error)
      (StrCol ["1"; "2"]) = Some (st', Ok tt) /\
    OneHotEncoder.transform st' (StrCol ["1"; "v"]) = (st', Raise ValueError).
Proof.
  eexists. split; [vm_compute; reflexivity|].
  refine (onehot_transform_unseen_raises 3
            (OneHotEncoder.init OneHotEncoder.HU_error) (StrCol ["1"; "2"]) _
            (StrCol ["1"; "v"]) (VStr "v") _ _ _ _ _).
  - vm_compute. reflexivity.
  - reflexivity.
  - apply list_elem_of_further, list_elem_of_here.
  - apply (proj1 (py_in_false _ _)). vm_compute. reflexivity.
  - intros u w Hu Hw. vm_compute in Hu. injection Hu as <-.
    simpl in Hw. apply elem_of_cons in Hw as [->|Hw]; [vm_compute; reflexivity|].
    apply elem_of_cons in Hw as [->|Hw]; [vm_compute; reflexivity|].
    by apply not_elem_of_nil in Hw.
Defined.

(** ** [countencoder] *)

(** X9.  Whatever the object held before, [fit] succeeds and leaves in
    [dmap] exactly the values of the column as keys, each with its number
    of occurrences; the constructor parameters are not touched. *)
Theorem countencoder_fit_counts st X :
  (CountEncoder.fit st X).2 = Ok tt /\
  CountEncoder.unseen_values (CountEncoder.fit st X).1
    = CountEncoder.unseen_values st /\
  CountEncoder.log_transform (CountEncoder.fit st X).1
    = CountEncoder.log_transform st /\
  CountEncoder.smoothing (CountEncoder.fit st X).1 = CountEncoder.smoothing st /\
  exists d,
    CountEncoder.dmap (CountEncoder.fit st X).1 = Some d /\
    (forall v, v ∈ values X -> d !! v = Some (occurrences v (values X))
                               /\ 0 < occurrences v (values X)) /\
    (forall v, v ∉ values X -> d !! v = None).
Proof.
  repeat (split; [reflexivity|]).
  exists (CountEncoder.Counter (values X)). split; [reflexivity|]. split.
  - intros v Hv. rewrite Counter_lookup, bool_decide_eq_true_2 by done.
    split; [reflexivity|]. by apply occurrences_pos.
  - intros v Hv. by rewrite Counter_lookup, bool_decide_eq_false_2.
Qed.





(** ** [targetencoder] *)


Section TargetEncoderEdges.
Context {num rng : Type} `{!Numeric num} `{!RandomState num rng}.

Lemma lookup_all_empty (p : num) vs :
  TargetEncoder.lookup_all (Some ∅) (Some p) vs = Ok (replicate (length vs) p).
Proof.
  induction vs as [|v vs IH]; [reflexivity|].
  cbn [TargetEncoder.lookup_all]. rewrite IH.
  rewrite bool_decide_eq_false_2; [reflexivity|].
  rewrite dom_empty_L. apply not_elem_of_empty.
Qed.


(** X13.  On an empty column [fit] succeeds for a target of any length:
    no class is visited, so the lengths are never compared; [dmap] is
    left empty and [transform] returns the mean of the target for every
    value. *)
Theorem targetencoder_fit_empty_column (g : rng)
  (st : TargetEncoder.state num) (X : column) (y : list num) (g0 : rng) :
  values X = [] ->
  rng_seed (TargetEncoder.random_seed st) = Some g0 ->
  rng_scale_ok (TargetEncoder.random_noise st) = true ->
  exists st',
    TargetEncoder.fit g st X (Some y) = (g0, st', Ok tt) /\
    TargetEncoder.dmap st' = Some ∅ /\
    TargetEncoder.base_p st' = Some (num_mean y) /\
    forall (gT : rng) X',
      TargetEncoder.transform gT st' X'
      = (gT, st', Ok (replicate (length (values X')) (num_mean y))).
Proof.
  intros HX Hseed Hscale.
  assert (Hcl : np_unique X = []).
  { destruct X as [[|s l]|[|z l]]; try discriminate; reflexivity. }
  unfold TargetEncoder.fit, np_random_normal. simpl.
  rewrite Hseed, Hscale, Hcl. simpl.
  eexists. split; [reflexivity|]. simpl.
  split; [reflexivity|]. split; [reflexivity|].
  intros gT X'. unfold TargetEncoder.transform. simpl.
  by rewrite lookup_all_empty.
Qed.

End TargetEncoderEdges.


Lemma targetencoder_fit_empty_column_witness :
  let st := TargetEncoder.init (5 # 100)%Q (1 # 10)%Q 10%Z in
  exists st',
    TargetEncoder.fit 0%Z st (StrCol []) (Some [1; 0; 1]%Q) = (10%Z, st', Ok tt) /\
    TargetEncoder.dmap st' = Some ∅.
Proof.
  intros st.
  destruct (targetencoder_fit_empty_column (num := Q) (rng := Z)
              0%Z st (StrCol []) [1; 0; 1]%Q 10%Z)
    as (st' & Hfit & Hd & _); [reflexivity..|].
  by exists st'.
Defined.









(** X15.  In exact arithmetic the value [fit] smooths does not depend on
    how many rows a class has: for a non-empty subset [l] and
    [smoothing] other than [-1],
    [(sum(l) + smoothing*len(l)*base_p) / (len(l) + smoothing*len(l))]
    equals [(mean(l) + smoothing*base_p) / (1 + smoothing)], a fixed
    blend of the class mean and the global mean. *)
Theorem smoothed_mean_size_independent (s bp : Q) (l : list Q) :
  l <> [] -> ~ (1 + s == 0)%Q ->
  (TargetEncoder.smoothed_mean s bp l == (num_mean l + s * bp) / (1 + s))%Q.
Proof.
  intros Hl Hs. unfold TargetEncoder.smoothed_mean, py_sum. simpl.
  set (n := inject_Z (Z.of_nat (length l))).
  assert (Hn : ~ (n == 0)%Q).
  { unfold n. intros H. unfold Qeq in H. simpl in H.
    destruct l; [done|]. simpl length in H. lia. }
  assert (Hd : ~ (n + s * n == 0)%Q).
  { intros H. apply Hs.
    assert (E : ((1 + s) * n == 0)%Q) by (rewrite <- H; ring).
    apply Qmult_integral in E as [E|E]; [exact E|by destruct Hn]. }
  field. repeat split; first [exact Hs | exact Hn | exact Hd].
Qed.

Lemma smoothed_mean_size_independent_witness :
  (TargetEncoder.smoothed_mean (1 # 10) (4 # 6) [1; 0; 1]
   == (num_mean [1; 0; 1] + (1 # 10) * (4 # 6)) / (1 + (1 # 10)))%Q.
Proof.
  apply smoothed_mean_size_independent; [discriminate|].
  intros H. vm_compute in H. discriminate.
Defined.

(** ** [xgb_model_evaluation]: the loop over the folds *)

Section ModelEvaluationLoop.
Context {row booster score : Type}.
Context (train_test_split : list row -> list Z -> Q -> Z
                            -> list row * list row * list Z * list Z)
        (skf_split : Z -> Z -> list row -> list Z -> list (list nat * list nat))
        (xgb_train : ModelEvaluation.train_call (row := row) -> booster)
        (predict : booster -> ModelEvaluation.DMatrix (row := row) -> list score)
        (roc_auc_score : option (list Z) -> list score -> score).


(** The loop never touches the module-level dictionaries; it only adds
    calls of [xgb.train], each with the [params] of this invocation. *)
Lemma cv_loop_frame params train0 train_y test test_y dtest test_size esr nr cvv
  folds (w : ModelEvaluation.world (row := row)) dic :
  let out := ModelEvaluation.cv_loop xgb_train predict roc_auc_score params
               train0 train_y test test_y dtest test_size esr nr cvv
               folds w dic in
  ModelEvaluation.params_tree out.1 = ModelEvaluation.params_tree w /\
  ModelEvaluation.params_linear out.1 = ModelEvaluation.params_linear w /\
  exists calls,
    ModelEvaluation.trained out.1 = ModelEvaluation.trained w ++ calls /\
    length calls <= length folds /\
    Forall (fun c => ModelEvaluation.tc_params c = params) calls.
Proof.
  revert w dic. induction folds as [|[t v] folds IH]; intros w dic; simpl.
  - split; [done|]. split; [done|]. exists []. by rewrite app_nil_r.
  - destruct (ModelEvaluation.iloc train0 t) as [tra|e]; simpl;
      [|split; [done|]; split; [done|]; exists []; rewrite app_nil_r;
        split; [done|]; split; [simpl; lia|constructor]].
    destruct (ModelEvaluation.iloc train0 v) as [val|e]; simpl;
      [|split; [done|]; split; [done|]; exists []; rewrite app_nil_r;
        split; [done|]; split; [simpl; lia|constructor]].
    destruct (ModelEvaluation.iloc train_y t) as [tra_y|e]; simpl;
      [|split; [done|]; split; [done|]; exists []; rewrite app_nil_r;
        split; [done|]; split; [simpl; lia|constructor]].
    destruct (ModelEvaluation.iloc train_y v) as [val_y|e]; simpl;
      [|split; [done|]; split; [done|]; exists []; rewrite app_nil_r;
        split; [done|]; split; [simpl; lia|constructor]].
    match goal with
    | |- context [ModelEvaluation.cv_loop _ _ _ _ _ _ _ _ _ _ _ _ _ folds ?w' ?d'] =>
        destruct (IH w' d') as (Ht & Hl & calls & Hc & Hlen & Hall)
    end.
    simpl in *. split; [exact Ht|]. split; [exact Hl|].
    eexists (_ :: calls). rewrite Hc, <- app_assoc. simpl.
    split; [reflexivity|]. split; [lia|]. by constructor.
Qed.


End ModelEvaluationLoop.

Section ModelEvaluationEffects.
Context {row booster score : Type}.
Context (train_test_split : list row -> list Z -> Q -> Z
                            -> list row * list row * list Z * list Z)
        (skf_split : Z -> Z -> list row -> list Z -> list (list nat * list nat))
        (xgb_train : ModelEvaluation.train_call (row := row) -> booster)
        (predict : booster -> ModelEvaluation.DMatrix (row := row) -> list score)
        (roc_auc_score : option (list Z) -> list score -> score).

(** X16.  Whatever the folds and whether or not the call ends normally,
    a call with [params='gbtree'] leaves the module-level [params_tree]
    with its ['scale_pos_weight'] overwritten by the ratio of this call
    (the [pn_ratio] argument, or zeros over ones of [target]) and does not
    touch [params_linear]; ['gblinear'] does the same to [params_linear]
    alone; any other argument leaves both as they were.  The calls of
    [xgb.train] made before this one stay in the trace. *)
Theorem xgb_params_dict_update (w : ModelEvaluation.world (row := row))
  (df : list row) (target : list Z) (test : option (list row))
  (test_y : option (list Z)) (params : ModelEvaluation.params_arg)
  (n_folds : Z) (test_size : Q)
  (random_state early_stopping_rounds num_rounds : Z)
  (cv_verbose_eval verbose_eval : bool)
  (pn_ratio : option ModelEvaluation.ratio) :
  let out :=
    ModelEvaluation.xgb_model_evaluation train_test_split skf_split xgb_train
      predict roc_auc_score w df target test test_y params n_folds test_size
      random_state early_stopping_rounds num_rounds cv_verbose_eval
      verbose_eval pn_ratio in
  let pn :=
    match pn_ratio with
    | None =>
        ModelEvaluation.np_true_divide (ModelEvaluation.count_eq target 0)
          (ModelEvaluation.count_eq target 1)
    | Some r => r
    end in
  let by_name name :=
    match params with
    | ModelEvaluation.ByName s => String.eqb s name
    | ModelEvaluation.Dict _ => false
    end in
  ModelEvaluation.params_tree out.1
  = (if by_name "gbtree"
     then <["scale_pos_weight" := ModelEvaluation.PNum pn]>
            (ModelEvaluation.params_tree w)
     else ModelEvaluation.params_tree w) /\
  ModelEvaluation.params_linear out.1
  = (if by_name "gblinear"
     then <["scale_pos_weight" := ModelEvaluation.PNum pn]>
            (ModelEvaluation.params_linear w)
     else ModelEvaluation.params_linear w) /\
  exists calls,
    ModelEvaluation.trained out.1 = ModelEvaluation.trained w ++ calls.
Proof.
  intros out pn by_name. subst out by_name.
  unfold ModelEvaluation.xgb_model_evaluation. fold pn.
  destruct params as [s|d];
    [destruct (String.eqb s "gbtree") eqn:E1;
       [apply String.eqb_eq in E1 as ->
       |destruct (String.eqb s "gblinear") eqn:E2]|];
  (destruct test as [t|], test_y as [ty|];
   try destruct (train_test_split df target test_size random_state)
         as [[[tr te] tr_y] te_y];
   destruct (bool_decide (n_folds <> 0%Z));
   cbn -[ModelEvaluation.cv_loop];
   first
   [ match goal with
     | |- context [ModelEvaluation.cv_loop ?xt ?pr ?roc ?p ?tr0 ?ty0 ?te0
                     ?tey0 ?dt ?ts ?e ?n ?c ?f ?w0 ?d0] =>
         pose proof (cv_loop_frame xt pr roc p tr0 ty0 te0 tey0 dt ts e n c
                       f w0 d0) as Hframe;
         cbv zeta in Hframe;
         destruct Hframe as (Ht & Hl & calls & Hc & _);
         destruct (ModelEvaluation.cv_loop xt pr roc p tr0 ty0 te0 tey0 dt ts
                     e n c f w0 d0) as [w2 [dic|e']]
     end;
     simpl in *; rewrite Ht, Hl, Hc;
     (split; [reflexivity|]); (split; [reflexivity|]);
     eexists; rewrite <- ?app_assoc; reflexivity
   | (split; [reflexivity|]); (split; [reflexivity|]);
     eexists; reflexivity ]).
Qed.

End ModelEvaluationEffects.

Section ModelEvaluationCounts.
Context {row booster score : Type}.
Context (train_test_split : list row -> list Z -> Q -> Z
                            -> list row * list row * list Z * list Z)
        (skf_split : Z -> Z -> list row -> list Z -> list (list nat * list nat))
        (xgb_train : ModelEvaluation.train_call (row := row) -> booster)
        (predict : booster -> ModelEvaluation.DMatrix (row := row) -> list score)
        (roc_auc_score : option (list Z) -> list score -> score).


End ModelEvaluationCounts.

